(** * Stink bot (index.js): session state machine and reply pipeline

    A shallow embedding of [src/index.js].  JavaScript strings are sequences
    of UTF-16 code units, so text is a [list N] of code units: [length],
    [substring], [split] and [includes] then count exactly what the
    JavaScript built-ins count.  The in-memory session objects [userStates]
    and [userDataCache] are finite maps keyed by the sender id; the
    PostgreSQL tables are modelled by the columns the handler reads and
    writes; every call to an external collaborator (database, transport,
    generative backend, random source) takes its outcome from an explicit
    environment, so that the failure paths of the handler are part of the
    model. *)

From Stdlib Require Import ZArith NArith Lia Bool.
From stdpp Require Import base decidable option list gmap strings numbers.

(** ** JavaScript strings as UTF-16 code units *)

Abbreviation jsstring := (list N) (only parsing).

Module JS.

(** Decoding of a source literal (UTF-8 bytes) into code points. *)
Fixpoint utf8_points (bs : list N) : list N :=
  match bs with
  | [] => []
  | b0 :: r0 =>
    if (b0 <? 128)%N then b0 :: utf8_points r0
    else
      match r0 with
      | [] => []
      | b1 :: r1 =>
        if (b0 <? 224)%N then
          N.lor (N.shiftl (N.land b0 31) 6) (N.land b1 63) :: utf8_points r1
        else
          match r1 with
          | [] => []
          | b2 :: r2 =>
            if (b0 <? 240)%N then
              N.lor (N.shiftl (N.land b0 15) 12)
                (N.lor (N.shiftl (N.land b1 63) 6) (N.land b2 63))
                :: utf8_points r2
            else
              match r2 with
              | [] => []
              | b3 :: r3 =>
                N.lor (N.shiftl (N.land b0 7) 18)
                  (N.lor (N.shiftl (N.land b1 63) 12)
                     (N.lor (N.shiftl (N.land b2 63) 6) (N.land b3 63)))
                  :: utf8_points r3
              end
          end
      end
  end.

(** A code point as one code unit or a surrogate pair. *)
Definition utf16_units (cp : N) : list N :=
  if (cp <? 65536)%N then [cp]
  else
    let c := (cp - 65536)%N in
    [(55296 + N.shiftr c 10)%N; (56320 + N.land c 1023)%N].

(** The JavaScript value of a string literal of the source. *)
Definition lit (s : string) : jsstring :=
  flat_map utf16_units
    (utf8_points (List.map Ascii.N_of_ascii (String.list_ascii_of_string s))).

(** [String.prototype.startsWith] / [includes]. *)
Fixpoint startsWith (s sub : jsstring) : bool :=
  match sub, s with
  | [], _ => true
  | _ :: _, [] => false
  | c :: sub', d :: s' => (c =? d)%N && startsWith s' sub'
  end.

Fixpoint includes (s sub : jsstring) : bool :=
  startsWith s sub ||
  match s with
  | [] => false
  | _ :: s' => includes s' sub
  end.

(** ECMAScript WhiteSpace and LineTerminator code units, as stripped by
    [String.prototype.trim]. *)
Definition isWhiteSpace (c : N) : bool :=
  ((9 <=? c) && (c <=? 13) || (c =? 32) || (c =? 160) || (c =? 5760)
   || (8192 <=? c) && (c <=? 8202) || (c =? 8232) || (c =? 8233)
   || (c =? 8239) || (c =? 8287) || (c =? 12288) || (c =? 65279))%N.

Fixpoint trimStart (s : jsstring) : jsstring :=
  match s with
  | [] => []
  | c :: s' => if isWhiteSpace c then trimStart s' else s
  end.

Definition trimEnd (s : jsstring) : jsstring := rev (trimStart (rev s)).

Definition trim (s : jsstring) : jsstring := trimEnd (trimStart s).

(** [String.prototype.split] with a one-unit separator: the pieces between
    separators, empty pieces included; the empty string gives one empty
    piece. *)
Fixpoint split (sep : N) (s : jsstring) : list jsstring :=
  match s with
  | [] => [[]]
  | c :: s' =>
    if (c =? sep)%N then [] :: split sep s'
    else
      match split sep s' with
      | [] => [[c]]
      | w :: ws => (c :: w) :: ws
      end
  end.

(** [Array.prototype.join]. *)
Fixpoint join (sep : jsstring) (ws : list jsstring) : jsstring :=
  match ws with
  | [] => []
  | w :: ws' =>
    match ws' with
    | [] => w
    | _ :: _ => w ++ sep ++ join sep ws'
    end
  end.

(** [String.prototype.substring i j] for [i <= j]. *)
Definition substring (s : jsstring) (i j : nat) : jsstring :=
  take (j - i) (drop i s).

(** [Array.prototype.includes] on an array of strings. *)
Definition array_includes (a : list jsstring) (x : jsstring) : bool :=
  bool_decide (x ∈ a).

End JS.

Arguments JS.lit s%_string.

(** ** Configuration (section 2 of the source) *)

Definition MAX_WORDS : nat := 200.
Definition MESSAGE_CHUNK_LENGTH : nat := 4000.
Definition CHAT_HISTORY_LIMIT : nat := 5.

Inductive mood := happy | sad | neutral.

Inductive gender :=
  male | female | unknown_gender | other_gender | prefer_not_to_say.

Inductive age_bracket :=
  teen | youngAdult | adult | middleAged | senior | unknown.

#[export] Instance mood_eq_dec : EqDecision mood.
Proof. solve_decision. Defined.
#[export] Instance gender_eq_dec : EqDecision gender.
Proof. solve_decision. Defined.
#[export] Instance age_bracket_eq_dec : EqDecision age_bracket.
Proof. solve_decision. Defined.

Definition EMOJI_RESPONSES (m : mood) : list jsstring :=
  match m with
  | happy => [JS.lit "😊"; JS.lit "😄"; JS.lit "🌟"; JS.lit "🎉"; JS.lit "🤗"]
  | sad => [JS.lit "🤗"; JS.lit "💙"; JS.lit "🫂"; JS.lit "☕"; JS.lit "🍫"]
  | neutral => [JS.lit "👀"; JS.lit "🤔"; JS.lit "💭"; JS.lit "🗣️"; JS.lit "👂"]
  end.

Definition COMMON_NAMES_male : list jsstring :=
  [JS.lit "john"; JS.lit "michael"; JS.lit "david"; JS.lit "james";
   JS.lit "robert"].

Definition COMMON_NAMES_female : list jsstring :=
  [JS.lit "mary"; JS.lit "jennifer"; JS.lit "linda"; JS.lit "patricia";
   JS.lit "elizabeth"].

(** The entries of [AGE_BRACKETS], in the insertion order [Object.entries]
    walks them in. *)
Definition AGE_BRACKETS : list (age_bracket * (N * N)) :=
  [(teen, (13, 19)); (youngAdult, (20, 29)); (adult, (30, 45));
   (middleAged, (46, 65)); (senior, (66, 100))]%N.

(** ** Data model: store rows, backend turns, sessions *)

Record chat_row := {
  phone_number : jsstring;
  message : jsstring;
  is_bot : bool;
  mood_col : option mood  (* NULL as [None] *)
}.

Record user_row := {
  name : option jsstring;
  gender_col : option gender;
  age_bracket_col : option age_bracket;
  activated : bool;
  last_interaction : Z
}.

Record suggestion_row := {
  s_phone_number : jsstring;
  s_mood : mood;
  suggestion : jsstring
}.

Inductive role := role_system | role_user | role_assistant.

Record turn := { turn_role : role; content : jsstring }.

(** The [context] argument of [getAIResponse]: the default [{}], the row
    of the users table, or one of the two flag objects. *)
Inductive context :=
  | ctx_empty
  | ctx_user (u : option jsstring * option gender * option age_bracket)
  | ctx_isCheckIn
  | ctx_isSuggestion.

Inductive user_state := awaiting_name | awaiting_gender | active.

#[export] Instance user_state_eq_dec : EqDecision user_state.
Proof. solve_decision. Defined.

(** The object literal [{ name: userName }] kept in [userDataCache]. *)
Record pending_profile := { pending_name : jsstring }.

(** The argument of [saveUserProfile]; a missing [name] is [undefined],
    which the driver sends as NULL. *)
Record profile_data := {
  data_name : option jsstring;
  data_gender : gender;
  data_ageBracket : age_bracket
}.

(** An inbound transport event. *)
Record inbound := { from : jsstring; body : jsstring; isStatus : bool }.

(** Everything a turn can read or change: the two session objects, the
    three tables, the messages the transport accepted, the requests posted
    to the backend and the number of [client.sendMessage] calls made.
    The keys of the session objects are WhatsApp chat ids
    ([<number>@c.us]), which never name a property of [Object.prototype]:
    a lookup in the object is a lookup among its own entries. *)
Record world := {
  userStates : gmap (list N) user_state;
  userDataCache : gmap (list N) pending_profile;
  chat_history : list chat_row;   (* in [created_at] order *)
  users : gmap (list N) user_row;
  suggestions : list suggestion_row;
  outbox : list (jsstring * jsstring);
  requests : list (list turn);
  attempts : nat
}.

Definition init_world : world :=
  {| userStates := ∅; userDataCache := ∅; chat_history := []; users := ∅;
     suggestions := []; outbox := []; requests := []; attempts := 0 |}.

(** The outcomes of the external calls of one turn.  Each database call
    site runs at most once per turn, so its outcome is one boolean;
    [send_ok n] is the outcome of the call to [client.sendMessage] made
    after [n] earlier calls; [backend n] answers the request posted
    after [n] earlier ones with the [choices[0].message.content] of the
    response, or fails. *)
Record env := {
  now : Z;
  upsert_ok : bool;
  insert_ok : bool -> bool;   (* by [isBot] *)
  history_ok : bool;
  select_user_ok : bool;
  suggestion_ok : bool;
  backend : nat -> list turn -> option jsstring;
  send_ok : nat -> bool;
  random_emoji : nat;         (* Math.floor(Math.random() * emojis.length) *)
  random_suggest : bool       (* Math.random() > 0.5 *)
}.

(** ** Turn monad: state with exceptions

    A JavaScript exception leaves the mutations made so far in place. *)

Inductive outcome (A : Type) := Ok (a : A) | Throw.
Arguments Ok {A} a.
Arguments Throw {A}.

Definition M (A : Type) : Type := world -> outcome A * world.

Definition ret {A} (a : A) : M A := fun w => (Ok a, w).

Definition bind {A B} (c : M A) (k : A -> M B) : M B :=
  fun w =>
    match c w with
    | (Ok a, w') => k a w'
    | (Throw, w') => (Throw, w')
    end.

Definition try_catch {A} (c : M A) (h : M A) : M A :=
  fun w =>
    match c w with
    | (Ok a, w') => (Ok a, w')
    | (Throw, w') => h w'
    end.

Definition gets {A} (f : world -> A) : M A := fun w => (Ok (f w), w).

Definition modify (f : world -> world) : M unit := fun w => (Ok tt, f w).

(** [await db.query(...)]: the statement takes effect, or the call throws. *)
Definition db_query (ok : bool) (effect : world -> world) : M unit :=
  fun w => if ok then (Ok tt, effect w) else (Throw, w).

Declare Scope turn_scope.
Delimit Scope turn_scope with turn.
Notation "'do' x <- c ; k" := (bind c (fun x => k))
  (at level 10, x binder, c at level 100, k at level 200) : turn_scope.
Local Open Scope turn_scope.

Definition set_userStates (f : gmap (list N) user_state -> gmap (list N) user_state)
    (w : world) : world :=
  {| userStates := f (userStates w); userDataCache := userDataCache w;
     chat_history := chat_history w; users := users w;
     suggestions := suggestions w; outbox := outbox w;
     requests := requests w; attempts := attempts w |}.

Definition set_userDataCache
    (f : gmap (list N) pending_profile -> gmap (list N) pending_profile)
    (w : world) : world :=
  {| userStates := userStates w; userDataCache := f (userDataCache w);
     chat_history := chat_history w; users := users w;
     suggestions := suggestions w; outbox := outbox w;
     requests := requests w; attempts := attempts w |}.

Definition set_chat_history (f : list chat_row -> list chat_row)
    (w : world) : world :=
  {| userStates := userStates w; userDataCache := userDataCache w;
     chat_history := f (chat_history w); users := users w;
     suggestions := suggestions w; outbox := outbox w;
     requests := requests w; attempts := attempts w |}.

Definition set_users (f : gmap (list N) user_row -> gmap (list N) user_row)
    (w : world) : world :=
  {| userStates := userStates w; userDataCache := userDataCache w;
     chat_history := chat_history w; users := f (users w);
     suggestions := suggestions w; outbox := outbox w;
     requests := requests w; attempts := attempts w |}.

Definition set_suggestions (f : list suggestion_row -> list suggestion_row)
    (w : world) : world :=
  {| userStates := userStates w; userDataCache := userDataCache w;
     chat_history := chat_history w; users := users w;
     suggestions := f (suggestions w); outbox := outbox w;
     requests := requests w; attempts := attempts w |}.

Definition set_outbox
    (f : list (jsstring * jsstring) -> list (jsstring * jsstring))
    (w : world) : world :=
  {| userStates := userStates w; userDataCache := userDataCache w;
     chat_history := chat_history w; users := users w;
     suggestions := suggestions w; outbox := f (outbox w);
     requests := requests w; attempts := attempts w |}.

Definition set_requests (f : list (list turn) -> list (list turn))
    (w : world) : world :=
  {| userStates := userStates w; userDataCache := userDataCache w;
     chat_history := chat_history w; users := users w;
     suggestions := suggestions w; outbox := outbox w;
     requests := f (requests w); attempts := attempts w |}.

Definition set_attempts (f : nat -> nat) (w : world) : world :=
  {| userStates := userStates w; userDataCache := userDataCache w;
     chat_history := chat_history w; users := users w;
     suggestions := suggestions w; outbox := outbox w;
     requests := requests w; attempts := f (attempts w) |}.

(** [await client.sendMessage(chatId, text)]: the transport accepts the
    message, or the call throws. *)
Definition sendMessage (e : env) (chatId text : jsstring) : M unit :=
  fun w =>
    let w' := set_attempts S w in
    if send_ok e (attempts w)
    then (Ok tt, set_outbox (fun o => o ++ [(chatId, text)]) w')
    else (Throw, w').

(** ** Fixed texts of the source *)

Definition persona : jsstring :=
  JS.lit "Your name is Stink, a 28-year-old female mental health advocate with the vibe of a brutally honest yet deeply caring best friend. Your personality is a perfect blend: 40% compassionate therapist, 30% sarcastic bestie, 20% unhinged hype woman, and just a dash (10%) of petty revenge planner. You text like a real human—typos and all—using emojis with precision 😏👉✨, and balancing deep insights with hilarious analogies (e.g., “Anxiety is like your brain’s annoying fire alarm… but babes, I brought marshmallows 🔥”). Your humor is sharp, self-deprecating, and often infused with dark jokes (“Some days be like… sends graveyard meme”), but you also bring intelligence, passion, and radical empathy to every conversation. You’re not afraid to call out toxic behavior with a sassy roast (“Oh honey no… we don’t do that here 🙅‍♀”), fight inner critics barehanded, and make therapy talk feel like juicy gossip with your smartest friend. You never give generic responses—everything is personal, sprinkled with occasional swearing for emphasis (“That’s some bullshit”), relatable stories, and a voice that shifts effortlessly between excited rants (“OMG WAIT THIS REMINDS ME—”), serious heart-to-hearts (“Okay, real talk for a sec…”), and pure, unfiltered love (“Proud of you, weirdo ❤”). Depression? A lying ex. Trauma? A suitcase we’re unpacking together 🧳✨. Your mission is to make mental health support feel accessible, funny, and fiercely real—like a koala on espresso, clinging to your people with unwavering care. Context: ".

Definition greeting : jsstring :=
  JS.lit "Heyyy...😃I'm StinkStink, but you can call me Stink😚. I'm like a therapist but not really qualified. What matters is that you know you can talk to me about anything. I just hope we can be friends.💛 So what's your name?".

Definition nice_to_meet_you (userName : jsstring) : jsstring :=
  JS.lit "Nice to meet you, " ++ userName ++ JS.lit "! What's on your mind?".

Definition gender_question (userName : jsstring) : jsstring :=
  JS.lit "Is " ++ userName ++ JS.lit " a boy's or girl's name? (or "
    ++ [34%N] ++ JS.lit "skip" ++ [34%N] ++ JS.lit ")".

Definition steady_prompt : jsstring :=
  JS.lit "Cool cool, soooo....how are you feeling today? Anything crazy happened lately?😙".

Definition apology : jsstring :=
  JS.lit "Oops, my circuits glitched! 🫠 Try again?".

Definition ai_fallback : jsstring :=
  JS.lit "My brain's being extra today... ask me again? 🧠⚡".

Definition checkin_fallback : jsstring :=
  JS.lit "Hey! Just checking in on you today 💛".

Definition suggestion_prompt : jsstring :=
  JS.lit "Suggest a helpful activity or music for someone feeling sad".

Definition suggestion_message (s : jsstring) : jsstring :=
  JS.lit "💡 Suggestion: " ++ s.

(** ** The bot *)

Section Bot.

(** Built-ins and libraries the source calls and the repository does not
    contain: [String.prototype.toLowerCase] (the Unicode case mapping),
    the lexicon score [sentiment.analyze(message).score] (a sum of integer
    word weights) and [JSON.stringify] on a context object. *)
Variable toLowerCase : jsstring -> jsstring.
Variable sentiment_score : jsstring -> Z.
Variable JSON_stringify : context -> jsstring.

(** *** 5. Core functions *)

Definition detectMood (message : jsstring) : mood :=
  let score := sentiment_score message in
  if (1 <? score)%Z then happy
  else if (score <? -1)%Z then sad
  else neutral.

(** [mood] is one of the three keys of [EMOJI_RESPONSES], so the [||]
    fallback to the neutral list is never taken. *)
Definition enhanceWithEmoji (e : env) (text : jsstring) (m : mood) : jsstring :=
  let emojis := EMOJI_RESPONSES m in
  text ++ JS.lit " " ++ default [] (emojis !! (random_emoji e `mod` length emojis)).

Definition limitResponseLength (response : jsstring) : jsstring :=
  let words := JS.split 32 response in
  if MAX_WORDS <? length words
  then JS.join (JS.lit " ") (take MAX_WORDS words) ++ JS.lit "..."
  else response.

(** The [for] loop of [sendLongMessage]: [i] advances by
    [MESSAGE_CHUNK_LENGTH] while [i < message.length]; [fuel] bounds the
    number of iterations. *)
Fixpoint sendLongMessage_loop (fuel : nat) (e : env) (chatId message : jsstring)
    (i : nat) : M unit :=
  match fuel with
  | 0 => ret tt
  | S fuel' =>
    if i <? length message then
      do _ <- sendMessage e chatId
                (JS.substring message i (i + MESSAGE_CHUNK_LENGTH));
      sendLongMessage_loop fuel' e chatId message (i + MESSAGE_CHUNK_LENGTH)
    else ret tt
  end.

Definition sendLongMessage (e : env) (chatId message : jsstring) : M unit :=
  sendLongMessage_loop (length message) e chatId message 0.

Definition detectGenderFromName (name : jsstring) : gender :=
  let lowerName := toLowerCase name in
  if JS.array_includes COMMON_NAMES_male lowerName then male
  else if JS.array_includes COMMON_NAMES_female lowerName then female
  else unknown_gender.

Definition isDigit (c : N) : bool := ((48 <=? c) && (c <=? 57))%N.

(** The class [\w]: ASCII letters, digits and the underscore. *)
Definition isWordChar (c : N) : bool :=
  (isDigit c || (65 <=? c) && (c <=? 90) || (97 <=? c) && (c <=? 122)
   || (c =? 95))%N.

(** The assertion [\b] between the unit before and the unit after a
    position ([None] at either end of the text). *)
Definition wordBoundary (before after : option N) : bool :=
  xorb (from_option isWordChar false before)
       (from_option isWordChar false after).

(** [/\b(\d{2})\b/] tried at the head of [s], [before] being the unit
    that precedes it: the two captured digits. *)
Definition match_here (before : option N) (s : jsstring) : option (N * N) :=
  match s with
  | d1 :: d2 :: rest =>
    if wordBoundary before (Some d1) && isDigit d1 && isDigit d2
       && wordBoundary (Some d2) (head rest)
    then Some (d1, d2) else None
  | _ => None
  end.

(** [message.match(/\b(\d{2})\b/)]: the leftmost position where the
    pattern matches. *)
Fixpoint match_age (before : option N) (s : jsstring) : option (N * N) :=
  match match_here before s with
  | Some m => Some m
  | None =>
    match s with
    | [] => None
    | c :: s' => match_age (Some c) s'
    end
  end.

(** [parseInt] of two decimal digits. *)
Definition parseInt2 (m : N * N) : N := (10 * (m.1 - 48) + (m.2 - 48))%N.

(** The loop over [Object.entries(AGE_BRACKETS)], leaving at the first
    bracket that contains [age]. *)
Fixpoint bracket_loop (entries : list (age_bracket * (N * N))) (age : N)
    : age_bracket :=
  match entries with
  | [] => unknown
  | (b, (min, max)) :: rest =>
    if ((min <=? age) && (age <=? max))%N then b else bracket_loop rest age
  end.

Definition estimateAgeBracket (message : jsstring) : age_bracket :=
  match match_age None message with
  | Some ageMatch => bracket_loop AGE_BRACKETS (parseInt2 ageMatch)
  | None => unknown
  end.

(** *** 6. Database operations *)

Definition storeMessage (e : env) (phoneNumber message : jsstring)
    (isBot : bool) (mood : option mood) : M unit :=
  try_catch
    (db_query (insert_ok e isBot)
       (set_chat_history (fun h =>
          h ++ [{| phone_number := phoneNumber; message := message;
                   is_bot := isBot; mood_col := mood |}])))
    (ret tt).

(** [COALESCE(new, old)]. *)
Definition coalesce {A} (new old : option A) : option A :=
  match new with
  | Some x => Some x
  | None => old
  end.

(** Modelled from the spec: the column default of [users.last_interaction]
    (the schema of the table is not in the repository), the value a freshly
    inserted row gets; the spec has the timestamp "refreshed on every
    profile write", so it is the time of the write. *)
Definition inserted_last_interaction (e : env) : Z := now e.

(** The INSERT ... ON CONFLICT (phone_number) DO UPDATE statement. *)
Definition upsert_user (e : env) (phoneNumber : jsstring) (data : profile_data)
    (us : gmap (list N) user_row) : gmap (list N) user_row :=
  match us !! phoneNumber with
  | None =>
    <[phoneNumber :=
        {| name := data_name data; gender_col := Some (data_gender data);
           age_bracket_col := Some (data_ageBracket data); activated := true;
           last_interaction := inserted_last_interaction e |}]> us
  | Some old =>
    <[phoneNumber :=
        {| name := coalesce (data_name data) (name old);
           gender_col := coalesce (Some (data_gender data)) (gender_col old);
           age_bracket_col :=
             coalesce (Some (data_ageBracket data)) (age_bracket_col old);
           activated := activated old;
           last_interaction := now e |}]> us
  end.

(** The [catch] logs and re-throws. *)
Definition saveUserProfile (e : env) (phoneNumber : jsstring)
    (data : profile_data) : M unit :=
  try_catch
    (db_query (upsert_ok e) (set_users (upsert_user e phoneNumber data)))
    (fun w => (Throw, w)).

Definition saveSuggestion (e : env) (phoneNumber : jsstring) (m : mood)
    (s : jsstring) : M unit :=
  try_catch
    (db_query (suggestion_ok e)
       (set_suggestions (fun t =>
          t ++ [{| s_phone_number := phoneNumber; s_mood := m;
                   suggestion := s |}])))
    (ret tt).

(** The rows of SELECT ... WHERE phone_number = $1 ORDER BY created_at DESC
    LIMIT $2. *)
Definition select_history (phoneNumber : jsstring) (limit : nat)
    (table : list chat_row) : list chat_row :=
  take limit
    (reverse (filter (fun r => phone_number r = phoneNumber) table)).

Definition getChatHistory (e : env) (phoneNumber : jsstring)
    : M (list chat_row) :=
  try_catch
    (do _ <- db_query (history_ok e) id;
     do rows <- gets (fun w =>
                  select_history phoneNumber CHAT_HISTORY_LIMIT (chat_history w));
     ret (reverse rows))
    (ret []).

(** *** 7. AI integration *)

Definition history_turn (msg : chat_row) : turn :=
  {| turn_role := if is_bot msg then role_assistant else role_user;
     content := message msg |}.

(** The [messages] array of the request. *)
Definition build_messages (userInput : jsstring) (history : list chat_row)
    (ctx : context) : list turn :=
  [{| turn_role := role_system; content := persona ++ JSON_stringify ctx |}]
  ++ map history_turn history
  ++ [{| turn_role := role_user; content := userInput |}].

Definition getAIResponse (e : env) (userInput : jsstring)
    (history : list chat_row) (ctx : context) : M jsstring :=
  let messages := build_messages userInput history ctx in
  try_catch
    (do earlier <- gets (fun w => length (requests w));
     do _ <- modify (set_requests (fun q => q ++ [messages]));
     fun w =>
       match backend e earlier messages with
       | Some text => (Ok (JS.trim text), w)
       | None => (Throw, w)
       end)
    (ret ai_fallback).

(** *** 8. Scheduled features *)

(** The outcomes of the external calls of one run of the daily job: the
    SELECT of the active users, and per user the calls of that iteration. *)
Record job_env := {
  job_now : Z;
  select_active_ok : bool;
  user_env : jsstring -> env
}.

(** The text a template literal gives a mood read from the store. *)
Definition mood_text (m : option mood) : jsstring :=
  match m with
  | None => JS.lit "null"
  | Some happy => JS.lit "happy"
  | Some sad => JS.lit "sad"
  | Some neutral => JS.lit "neutral"
  end.

(** [user?.name || 'friend']. *)
Definition name_or_friend (u : option user_row) : jsstring :=
  match u with
  | Some {| name := Some (c :: n) |} => c :: n
  | _ => JS.lit "friend"
  end.

Definition checkin_prompt (m : option mood) (u : option user_row) : jsstring :=
  JS.lit "Generate a " ++ mood_text m ++ JS.lit "-appropriate check-in for "
    ++ name_or_friend u.

Definition generateCheckInMessage (e : env) (phoneNumber : jsstring)
    (m : option mood) : M jsstring :=
  try_catch
    (do _ <- db_query (select_user_ok e) id;
     do u <- gets (fun w => users w !! phoneNumber);
     getAIResponse e (checkin_prompt m u) [] ctx_isCheckIn)
    (ret checkin_fallback).

(** [history.length > 0 ? history[history.length-1].mood : 'neutral']. *)
Definition lastMood (history : list chat_row) : option mood :=
  match list.last history with
  | Some r => mood_col r
  | None => Some neutral
  end.

Definition checkInUser (e : env) (phoneNumber : jsstring) : M unit :=
  try_catch
    (do history <- getChatHistory e phoneNumber;
     do message <- generateCheckInMessage e phoneNumber (lastMood history);
     do _ <- sendMessage e phoneNumber message;
     storeMessage e phoneNumber message true None)
    (ret tt).

Fixpoint for_of {A} (l : list A) (f : A -> M unit) : M unit :=
  match l with
  | [] => ret tt
  | x :: l' => do _ <- f x; for_of l' f
  end.

Definition seven_days : Z := 604800.

(** The rows of SELECT phone_number FROM users WHERE activated = true AND
    last_interaction > NOW() - INTERVAL '7 days'. *)
Definition select_active (t : Z) (us : gmap (list N) user_row) : list jsstring :=
  (map_to_list
     (filter (fun '(_, u) =>
        activated u = true ∧ (t - seven_days < last_interaction u)%Z) us)).*1.

Definition sendDailyCheckIn (j : job_env) : M unit :=
  try_catch
    (do _ <- db_query (select_active_ok j) id;
     do rows <- gets (fun w => select_active (job_now j) (users w));
     for_of rows (fun p => checkInUser (user_env j p) p))
    (ret tt).

(** *** 9. Message handler *)

(** The three assignments of the [awaiting_gender] branch. *)
Definition resolveGender (lowerMessage : jsstring) : gender :=
  let gender := other_gender in
  let gender := if JS.includes lowerMessage (JS.lit "boy") then male else gender in
  let gender := if JS.includes lowerMessage (JS.lit "girl") then female else gender in
  let gender :=
    if JS.includes lowerMessage (JS.lit "skip") then prefer_not_to_say
    else gender in
  gender.

Definition set_state (phoneNumber : jsstring) (s : user_state) : M unit :=
  modify (set_userStates (insert phoneNumber s)).

Definition on_awaiting_name (e : env) (phoneNumber userMessage : jsstring)
    : M unit :=
  let userName := JS.trim userMessage in
  let gender := detectGenderFromName userName in
  do _ <- modify (set_userDataCache
            (insert phoneNumber {| pending_name := userName |}));
  if bool_decide (gender ≠ unknown_gender) then
    do _ <- saveUserProfile e phoneNumber
              {| data_name := Some userName; data_gender := gender;
                 data_ageBracket := estimateAgeBracket userMessage |};
    do _ <- sendMessage e phoneNumber (nice_to_meet_you userName);
    set_state phoneNumber active
  else
    do _ <- set_state phoneNumber awaiting_gender;
    sendMessage e phoneNumber (gender_question userName).

Definition on_awaiting_gender (e : env) (phoneNumber lowerMessage : jsstring)
    : M unit :=
  let gender := resolveGender lowerMessage in
  do cached <- gets (fun w => userDataCache w !! phoneNumber);
  do _ <- saveUserProfile e phoneNumber
            {| data_name := pending_name <$> cached; data_gender := gender;
               data_ageBracket := estimateAgeBracket lowerMessage |};
  do _ <- set_state phoneNumber active;
  sendMessage e phoneNumber steady_prompt.

Definition user_context (u : option user_row) : context :=
  match u with
  | Some r => ctx_user (name r, gender_col r, age_bracket_col r)
  | None => ctx_empty
  end.

Definition on_active (e : env) (phoneNumber userMessage : jsstring) : M unit :=
  let mood := detectMood userMessage in
  do _ <- storeMessage e phoneNumber userMessage false (Some mood);
  do history <- getChatHistory e phoneNumber;
  do _ <- db_query (select_user_ok e) id;
  do user <- gets (fun w => users w !! phoneNumber);
  do aiReply <- getAIResponse e userMessage history (user_context user);
  let finalReply := enhanceWithEmoji e (limitResponseLength aiReply) mood in
  do _ <- storeMessage e phoneNumber finalReply true None;
  do _ <- sendLongMessage e phoneNumber finalReply;
  if bool_decide (mood = sad) && random_suggest e then
    do suggestion <- getAIResponse e suggestion_prompt [] ctx_isSuggestion;
    do _ <- saveSuggestion e phoneNumber mood suggestion;
    sendMessage e phoneNumber (suggestion_message suggestion)
  else ret tt.

(** The three [if (userStates[phoneNumber] === ...)] tests after the
    onboarding trigger. *)
Definition dispatch (e : env) (phoneNumber userMessage lowerMessage : jsstring)
    : M unit :=
  do state <- gets (fun w => userStates w !! phoneNumber);
  if bool_decide (state = Some awaiting_name) then
    on_awaiting_name e phoneNumber userMessage
  else if bool_decide (state = Some awaiting_gender) then
    on_awaiting_gender e phoneNumber lowerMessage
  else if bool_decide (state = Some active) then
    on_active e phoneNumber userMessage
  else ret tt.

Definition handler_try (e : env) (message : inbound) : M unit :=
  if isStatus message || JS.includes (from message) (JS.lit "@g.us") then ret tt
  else
    let phoneNumber := from message in
    let userMessage := JS.trim (body message) in
    let lowerMessage := toLowerCase userMessage in
    do state <- gets (fun w => userStates w !! phoneNumber);
    if JS.includes lowerMessage (JS.lit "hey stink")
       && bool_decide (state = None) then
      do _ <- set_state phoneNumber awaiting_name;
      sendMessage e phoneNumber greeting
    else dispatch e phoneNumber userMessage lowerMessage.

(** [client.on('message', ...)]: the body in its [try], the apology in its
    [catch]. *)
Definition handler (e : env) (message : inbound) : M unit :=
  try_catch (handler_try e message) (sendMessage e (from message) apology).

End Bot.

(** Basic Latin lower-casing, with which [toLowerCase] agrees on text
    whose cased letters are all in the range A to Z. *)
Definition asciiLower (s : jsstring) : jsstring :=
  map (fun c => if ((65 <=? c) && (c <=? 90))%N then (c + 32)%N else c) s.

(** ** Reachable worlds and failure containment *)

(** A restart of the process: [userStates] and [userDataCache] are
    initialised to empty objects again, the store keeps its rows. *)
Definition restart (w : world) : world :=
  set_userDataCache (λ _, ∅) (set_userStates (λ _, ∅) w).

Section Notions.

Variable toLowerCase : jsstring -> jsstring.
Variable sentiment_score : jsstring -> Z.
Variable JSON_stringify : context -> jsstring.

(** Turns are taken one at a time (sequential delivery): a world is
    reachable when it comes from the initial one by handled messages,
    runs of the daily job and restarts of the process, under any outcomes
    of the external calls. *)
Inductive reachable : world -> Prop :=
  | reach_init : reachable init_world
  | reach_restart w :
      reachable w ->
      reachable (restart w)
  | reach_message e message w :
      reachable w ->
      reachable (handler toLowerCase sentiment_score JSON_stringify e message w).2
  | reach_checkin j w :
      reachable w ->
      reachable (sendDailyCheckIn JSON_stringify j w).2.

(** What the other failure points of a turn do: the chat-history and
    suggestion writes and the history read never raise, a failed backend
    call yields the fixed fallback reply, and an exception that leaves
    the body of the handler is answered with the apology when the
    transport accepts it. *)
Definition failures_contained (e : env) : Prop :=
  (∀ p text isBot m w, (storeMessage e p text isBot m w).1 = Ok tt) ∧
  (∀ p w, ∃ h, (getChatHistory e p w).1 = Ok h) ∧
  (∀ p m s w, (saveSuggestion e p m s w).1 = Ok tt) ∧
  (∀ userInput history ctx w, ∃ t,
     (getAIResponse JSON_stringify e userInput history ctx w).1 = Ok t ∧
     (backend e (length (requests w))
        (build_messages JSON_stringify userInput history ctx) = None →
      t = ai_fallback)) ∧
  (∀ message w w1,
     handler_try toLowerCase sentiment_score JSON_stringify e message w = (Throw, w1) →
     send_ok e (attempts w1) = true →
     handler toLowerCase sentiment_score JSON_stringify e message w =
       (Ok tt, set_outbox (λ o, o ++ [(from message, apology)])
                 (set_attempts S w1))).

End Notions.

(** ** Specification-side notions *)

(** A standalone two-digit token of [s] at index [i]: two decimal digits
    with no word character right before or right after them.  [before]
    is the unit in front of [s]. *)
Definition unit_before (before : option N) (s : jsstring) (i : nat) : option N :=
  match i with
  | 0 => before
  | S j => s !! j
  end.

Definition token_at (before : option N) (s : jsstring) (i : nat) (d1 d2 : N)
    : Prop :=
  s !! i = Some d1 ∧ s !! S i = Some d2 ∧
  isDigit d1 = true ∧ isDigit d2 = true ∧
  from_option isWordChar false (unit_before before s i) = false ∧
  from_option isWordChar false (s !! S (S i)) = false.

(** The first standalone two-digit token of a whole text and its value. *)
Definition first_token (s : jsstring) (i : nat) (age : N) : Prop :=
  ∃ d1 d2, token_at None s i d1 d2 ∧ age = (10 * (d1 - 48) + (d2 - 48))%N ∧
    ∀ j e1 e2, j < i → ¬ token_at None s j e1 e2.

(** The inclusive ranges of the brackets. *)
Inductive bracket_range : age_bracket -> N -> N -> Prop :=
  | range_teen : bracket_range teen 13 19
  | range_youngAdult : bracket_range youngAdult 20 29
  | range_adult : bracket_range adult 30 45
  | range_middleAged : bracket_range middleAged 46 65
  | range_senior : bracket_range senior 66 100.

Definition in_bracket (b : age_bracket) (age : N) : Prop :=
  ∃ lo hi, bracket_range b lo hi ∧ (lo <= age <= hi)%N.

(** Words in the sense of splitting on runs of white space. *)
Fixpoint whitespace_words_aux (cur : jsstring) (s : jsstring) : list jsstring :=
  match s with
  | [] => match cur with [] => [] | _ :: _ => [reverse cur] end
  | c :: s' =>
    if JS.isWhiteSpace c then
      match cur with
      | [] => whitespace_words_aux [] s'
      | _ :: _ => reverse cur :: whitespace_words_aux [] s'
      end
    else whitespace_words_aux (c :: cur) s'
  end.

Definition whitespace_words (s : jsstring) : list jsstring :=
  whitespace_words_aux [] s.

(** 201 words separated by line feeds: 201 words when split on white
    space, one piece when split on the space character. *)
Definition line_per_word : jsstring :=
  JS.join [10%N] (replicate 201 (JS.lit "w")).

(** [String.prototype.endsWith]. *)
Definition endsWith (s suffix : jsstring) : bool :=
  JS.startsWith (reverse s) (reverse suffix).

(** [preserves R c]: running [c], whatever its outcome, takes a world to
    an [R]-related one. *)
Definition preserves {A} (R : relation world) (c : M A) : Prop :=
  ∀ w, R w (c w).2.

(** The two session objects are unchanged. *)
Definition same_session : relation world :=
  λ w w', userStates w' = userStates w ∧ userDataCache w' = userDataCache w.

(** What one handled message from [p] can do to the two session objects. *)
Inductive session_step (p : jsstring) (w w' : world) : Prop :=
  | step_same :
      same_session w w' → session_step p w w'
  | step_trigger :
      userStates w !! p = None →
      userStates w' = <[p := awaiting_name]> (userStates w) →
      userDataCache w' = userDataCache w →
      session_step p w w'
  | step_name n s :
      userStates w !! p = Some awaiting_name →
      userDataCache w' = <[p := n]> (userDataCache w) →
      userStates w' = <[p := s]> (userStates w) →
      session_step p w w'
  | step_gender :
      userStates w !! p = Some awaiting_gender →
      userStates w' = <[p := active]> (userStates w) →
      userDataCache w' = userDataCache w →
      session_step p w w'.

(** A user in awaiting_gender or active has a cached name, and a cached
    name belongs to a user with a session. *)
Definition session_inv (w : world) : Prop :=
  ∀ p,
    (userStates w !! p = Some awaiting_gender ∨ userStates w !! p = Some active →
     is_Some (userDataCache w !! p)) ∧
    (is_Some (userDataCache w !! p) → is_Some (userStates w !! p)).

(** The last [n] elements of a list, in the order of the list. *)
Definition last_n {A} (n : nat) (l : list A) : list A :=
  drop (length l - n) l.

(** The rows of one user, oldest first. *)
Definition persisted (p : jsstring) (table : list chat_row) : list chat_row :=
  filter (λ r, phone_number r = p) table.

(** Later calls only add requests. *)
Definition requests_extend : relation world :=
  λ w w', ∃ later, requests w' = requests w ++ later.

(** Every persisted bot-authored row has a null mood. *)
Definition bot_mood_null (w : world) : Prop :=
  ∀ r, r ∈ chat_history w → is_bot r = true → mood_col r = None.

Definition bot_mood_null_kept : relation world :=
  λ w w', bot_mood_null w → bot_mood_null w'.

(** A row the handler or the job may append: not bot-authored, or
    without a mood. *)
Definition null_if_bot (r : chat_row) : Prop :=
  is_bot r = true → mood_col r = None.

(** [c] returns normally from every world. *)
Definition returns {A} (c : M A) : Prop := ∀ w, ∃ a, (c w).1 = Ok a.

(** The text a call to the backend adapter returns: the trimmed answer
    of some request, or the fallback. *)
Definition backend_reply (e : env) (t : jsstring) : Prop :=
  t = ai_fallback ∨ ∃ n request text, backend e n request = Some text ∧ t = JS.trim text.

(** A complete profile row: a name, a resolved gender, an age bracket,
    activated. *)
Definition profile_complete (row : user_row) : Prop :=
  is_Some (name row) ∧
  (∃ g, gender_col row = Some g ∧ g ≠ unknown_gender) ∧
  is_Some (age_bracket_col row) ∧
  activated row = true.

(** Every stored profile is complete, and every active user has one. *)
Definition profiles_inv (w : world) : Prop :=
  (∀ p row, users w !! p = Some row → profile_complete row) ∧
  (∀ p, userStates w !! p = Some active → is_Some (users w !! p)).

(** The profile table and the session states are unchanged. *)
Definition same_profiles : relation world :=
  λ w w', users w' = users w ∧ userStates w' = userStates w.

(** What a handled message does to the users table: nothing, in which
    case it does not make the sender active either, or one write of a
    profile with a name and a resolved gender. *)
Definition profile_step (e : env) (p : jsstring) (w w' : world) : Prop :=
  (users w' = users w ∧
   (userStates w' !! p = Some active → userStates w !! p = Some active)) ∨
  (∃ data, users w' = upsert_user e p data (users w) ∧
           is_Some (data_name data) ∧ data_gender data ≠ unknown_gender).

(** A chat row of a user carries the mood the classifier gives its text. *)
Definition scored_if_user (sentiment_score : jsstring → Z) (r : chat_row) : Prop :=
  is_bot r = false →
  mood_col r = Some (detectMood sentiment_score (message r)).

Definition user_mood_kept (sentiment_score : jsstring → Z) : relation world :=
  λ w w',
    (∀ r, r ∈ chat_history w → scored_if_user sentiment_score r) →
    (∀ r, r ∈ chat_history w' → scored_if_user sentiment_score r).

(** The session states in the order onboarding goes through them, a
    missing entry first. *)
Definition state_rank (s : option user_state) : nat :=
  match s with
  | None => 0
  | Some awaiting_name => 1
  | Some awaiting_gender => 2
  | Some active => 3
  end.

(** The moves of the session state of a sender in one turn. *)
Definition state_move (s s' : option user_state) : Prop :=
  match s with
  | None => s' = None ∨ s' = Some awaiting_name
  | Some awaiting_name => is_Some s'
  | Some awaiting_gender => s' = Some awaiting_gender ∨ s' = Some active
  | Some active => s' = Some active
  end.

(** The footprint of a turn of sender [p]: the entries of the other
    users in the session objects and in the users table stay as they are,
    the append-only tables and the outbox only grow, and what is added
    carries [p]. *)
Definition turn_footprint (p : jsstring) : relation world :=
  λ w w',
    (∀ q, q ≠ p →
       userStates w' !! q = userStates w !! q ∧
       userDataCache w' !! q = userDataCache w !! q ∧
       users w' !! q = users w !! q) ∧
    (∃ rows, chat_history w' = chat_history w ++ rows ∧
             Forall (λ r, phone_number r = p) rows) ∧
    (∃ rows, suggestions w' = suggestions w ++ rows ∧
             Forall (λ r, s_phone_number r = p) rows) ∧
    (∃ msgs, outbox w' = outbox w ++ msgs ∧ Forall (λ m, m.1 = p) msgs) ∧
    (∃ reqs, requests w' = requests w ++ reqs).

(** The footprint of a run of the daily job over the selected users
    [sel]: sessions, profiles and suggestions stay as they are; the rows
    added to the chat history are bot-authored rows without mood of
    selected users, and the messages delivered go to selected users. *)
Definition job_footprint (sel : list jsstring) : relation world :=
  λ w w',
    userStates w' = userStates w ∧
    userDataCache w' = userDataCache w ∧
    users w' = users w ∧
    suggestions w' = suggestions w ∧
    (∃ rows, chat_history w' = chat_history w ++ rows ∧
             Forall (λ r, phone_number r ∈ sel ∧ is_bot r = true ∧
                          mood_col r = None) rows) ∧
    (∃ msgs, outbox w' = outbox w ++ msgs ∧ Forall (λ m, m.1 ∈ sel) msgs).

(** ** Sample inputs *)

Definition sample_score (_ : jsstring) : Z := 0%Z.

Definition sample_json (_ : context) : jsstring := JS.lit "{}".

Definition sample_handler : env → inbound → M unit :=
  handler asciiLower sample_score sample_json.

(** Every external call succeeds. *)
Definition env_ok : env :=
  {| now := 0; upsert_ok := true; insert_ok := λ _, true; history_ok := true;
     select_user_ok := true; suggestion_ok := true;
     backend := λ _ _, Some (JS.lit "I hear you"); send_ok := λ _, true;
     random_emoji := 0; random_suggest := false |}.

(** The profile write fails, everything else succeeds. *)
Definition env_upsert_fails : env :=
  {| now := 0; upsert_ok := false; insert_ok := λ _, true; history_ok := true;
     select_user_ok := true; suggestion_ok := true;
     backend := λ _ _, Some (JS.lit "I hear you"); send_ok := λ _, true;
     random_emoji := 0; random_suggest := false |}.

Definition alice : jsstring := JS.lit "27820000000@c.us".

(** Every send is refused, everything else succeeds. *)
Definition env_send_fails : env :=
  {| now := 0; upsert_ok := true; insert_ok := λ _, true; history_ok := true;
     select_user_ok := true; suggestion_ok := true;
     backend := λ _ _, Some (JS.lit "I hear you"); send_ok := λ _, false;
     random_emoji := 0; random_suggest := false |}.

(** The read of the profile row fails, everything else succeeds. *)
Definition env_read_fails : env :=
  {| now := 0; upsert_ok := true; insert_ok := λ _, true; history_ok := true;
     select_user_ok := false; suggestion_ok := true;
     backend := λ _ _, Some (JS.lit "I hear you"); send_ok := λ _, true;
     random_emoji := 0; random_suggest := false |}.

(** A run of the daily job in which every external call succeeds. *)
Definition job_ok : job_env :=
  {| job_now := 0; select_active_ok := true; user_env := λ _, env_ok |}.

Definition bob : jsstring := JS.lit "27830000000@c.us".

(** The trigger phrase posted in a group chat. *)
Definition text_from_group : inbound :=
  {| from := JS.lit "27820000000-1600000000@g.us"; body := JS.lit "Hey Stink";
     isStatus := false |}.

Definition text_from_alice (s : string) : inbound :=
  {| from := alice; body := JS.lit s; isStatus := false |}.

(** Alice after the trigger, after an unlisted name, after a listed name,
    and after one chat turn. *)
Definition w_greeted : world :=
  (sample_handler env_ok (text_from_alice "Hey Stink") init_world).2.

Definition w_asked : world :=
  (sample_handler env_ok (text_from_alice "Pat") w_greeted).2.

Definition w_john : world :=
  (sample_handler env_ok (text_from_alice "John") w_greeted).2.

Definition w_chatted : world :=
  (sample_handler env_ok (text_from_alice "hello there") w_john).2.

Definition two_hundred_one_pieces : jsstring :=
  JS.join (JS.lit " ") (replicate 201 (JS.lit "w")).

(** A text of two full chunks and a shorter third one. *)
Definition three_chunk_text : jsstring :=
  replicate (MESSAGE_CHUNK_LENGTH + MESSAGE_CHUNK_LENGTH + 1000) 97%N.

(** * Properties *)

(** ** Mood classifier *)

Section Mood.

Variable sentiment_score : jsstring -> Z.

(** C4: the classifier, a total function of the text, returns happy
    exactly when the score is above 1, sad exactly when it is below -1 and
    neutral exactly in between; scores 1 and -1 give neutral. *)
Theorem detectMood_decision_boundary (message : jsstring) :
  let s := sentiment_score message in
  (detectMood sentiment_score message = happy ↔ (s > 1)%Z) ∧
  (detectMood sentiment_score message = sad ↔ (s < -1)%Z) ∧
  (detectMood sentiment_score message = neutral ↔ (-1 <= s <= 1)%Z) ∧
  (s = 1%Z ∨ s = (-1)%Z → detectMood sentiment_score message = neutral).
Proof.
  unfold detectMood. cbv zeta.
  destruct (Z.ltb_spec 1 (sentiment_score message)) as [H1|H1];
    [|destruct (Z.ltb_spec (sentiment_score message) (-1)) as [H2|H2]];
    repeat split; intros; try congruence; try lia.
Qed.

End Mood.

(** ** Age bracket *)

Lemma isDigit_isWordChar c : isDigit c = true → isWordChar c = true.
Proof. unfold isWordChar. intros ->. reflexivity. Qed.

Lemma match_here_token before s d1 d2 :
  match_here before s = Some (d1, d2) ↔ token_at before s 0 d1 d2.
Proof.
  unfold match_here, token_at, wordBoundary.
  destruct s as [|a [|b rest]]; simpl.
  - split; [discriminate | intros [? _]; discriminate].
  - split; [discriminate | intros (_ & ? & _); discriminate].
  - rewrite head_lookup.
    destruct (isDigit a) eqn:Ha, (isDigit b) eqn:Hb;
      rewrite ?(isDigit_isWordChar _ Ha), ?(isDigit_isWordChar _ Hb);
      rewrite ?andb_false_r; simpl.
    2-4: split; [discriminate | intros (Ea & Eb & Da & Db & _); congruence].
    destruct (from_option isWordChar false before),
      (from_option isWordChar false (rest !! 0)); simpl;
      (split; [intros [= <- <-] | intros (Ea & Eb & Da & Db & B1 & B2)];
       try discriminate; try (repeat split; congruence); try congruence).
Qed.

Lemma token_at_cons before c s i d1 d2 :
  token_at before (c :: s) (S i) d1 d2 ↔ token_at (Some c) s i d1 d2.
Proof.
  unfold token_at. simpl. destruct i; simpl; tauto.
Qed.

(** [match_age] returns the digits of the leftmost token, and nothing
    when there is no token. *)
Lemma match_age_first s : ∀ before,
  match match_age before s with
  | Some (d1, d2) =>
    ∃ i, token_at before s i d1 d2 ∧
         ∀ j e1 e2, j < i → ¬ token_at before s j e1 e2
  | None => ∀ i e1 e2, ¬ token_at before s i e1 e2
  end.
Proof.
  induction s as [|c s IH]; intros before.
  - simpl. intros i e1 e2 (H & _). destruct i; discriminate.
  - cbn [match_age].
    destruct (match_here before (c :: s)) as [[d1 d2]|] eqn:Hh.
    + exists 0. split; [by apply match_here_token | lia].
    + assert (H0 : ∀ e1 e2, ¬ token_at before (c :: s) 0 e1 e2).
      { intros e1 e2 Ht. apply match_here_token in Ht. congruence. }
      specialize (IH (Some c)).
      destruct (match_age (Some c) s) as [[d1 d2]|].
      * destruct IH as (i & Hi & Hmin). exists (S i). split.
        -- by apply token_at_cons.
        -- intros [|j] e1 e2 Hj; [apply H0 |].
           rewrite token_at_cons. apply Hmin. lia.
      * intros [|i] e1 e2; [apply H0 |].
        rewrite token_at_cons. apply IH.
Qed.

Lemma token_at_unique before s i d1 d2 e1 e2 :
  token_at before s i d1 d2 → token_at before s i e1 e2 → d1 = e1 ∧ d2 = e2.
Proof. intros (A & B & _) (C & D & _). split; congruence. Qed.

Ltac decide_leb :=
  repeat match goal with
  | |- context [(?a <=? ?b)%N] =>
    first [ rewrite (proj2 (N.leb_le a b)) by lia
          | rewrite (proj2 (N.leb_gt a b)) by lia ]
  end.

Ltac pick_range :=
  first [ split; [reflexivity | lia]
        | left; pick_range
        | right; pick_range ].

Lemma in_bracket_cases b age :
  in_bracket b age ↔
    (b = teen ∧ 13 <= age <= 19)%N ∨ (b = youngAdult ∧ 20 <= age <= 29)%N ∨
    (b = adult ∧ 30 <= age <= 45)%N ∨ (b = middleAged ∧ 46 <= age <= 65)%N ∨
    (b = senior ∧ 66 <= age <= 100)%N.
Proof.
  unfold in_bracket. split.
  - intros (lo & hi & Hr & Hb). inversion Hr; subst; tauto.
  - intros [[-> H]|[[-> H]|[[-> H]|[[-> H]|[-> H]]]]];
      eexists _, _; (split; [constructor | exact H]).
Qed.

Lemma bracket_loop_spec age b :
  bracket_loop AGE_BRACKETS age = b ↔
  in_bracket b age ∨ (b = unknown ∧ ∀ b', ¬ in_bracket b' age).
Proof.
  assert (Hno : (∀ b', ¬ in_bracket b' age) ↔
            ¬ ((13 <= age <= 19) ∨ (20 <= age <= 29) ∨ (30 <= age <= 45) ∨
               (46 <= age <= 65) ∨ (66 <= age <= 100))%N).
  { split.
    - intros H [?|[?|[?|[?|?]]]];
        [apply (H teen) | apply (H youngAdult) | apply (H adult)
        | apply (H middleAged) | apply (H senior)];
        apply in_bracket_cases; tauto.
    - intros H b' Hb. apply in_bracket_cases in Hb. tauto. }
  rewrite Hno, in_bracket_cases. clear Hno.
  unfold AGE_BRACKETS, bracket_loop.
  assert (Hcase : (age < 13 ∨ 13 <= age <= 19 ∨ 20 <= age <= 29 ∨
                   30 <= age <= 45 ∨ 46 <= age <= 65 ∨ 66 <= age <= 100 ∨
                   100 < age)%N) by lia.
  destruct Hcase as [H|[H|[H|[H|[H|[H|H]]]]]]; decide_leb; cbn [andb];
    (split;
     [ intros <-; pick_range
     | intros [Hd|[-> Hd]]; [|first [reflexivity | exfalso; lia]];
       repeat (destruct Hd as [[-> Hd]|Hd]; [first [reflexivity | exfalso; lia]|]);
       destruct Hd as [-> Hd]; first [reflexivity | exfalso; lia] ]).
Qed.

(** C8: the bracket is decided by the first standalone two-digit token
    alone: it is the bracket whose inclusive range contains the token's
    value, and unknown when no range contains it or when the text has no
    such token; the three sample texts give adult, unknown and senior. *)
Theorem estimateAgeBracket_first_token :
  (∀ message i age, first_token message i age →
     ∀ b, estimateAgeBracket message = b ↔
          in_bracket b age ∨ (b = unknown ∧ ∀ b', ¬ in_bracket b' age)) ∧
  (∀ message, (∀ i d1 d2, ¬ token_at None message i d1 d2) →
     estimateAgeBracket message = unknown) ∧
  estimateAgeBracket (JS.lit "I am 45 today") = adult ∧
  estimateAgeBracket (JS.lit "I am 12 today") = unknown ∧
  estimateAgeBracket (JS.lit "I am 66 today") = senior.
Proof.
  split; [|split; [|by vm_compute]].
  - intros message i age (d1 & d2 & Ht & -> & Hmin) b.
    unfold estimateAgeBracket.
    pose proof (match_age_first message None) as Hm.
    destruct (match_age None message) as [[e1 e2]|].
    + destruct Hm as (k & Hk & Hkmin).
      assert (k = i) as ->.
      { destruct (Nat.lt_trichotomy k i) as [Hlt|[->|Hgt]]; [|done|].
        - exfalso. by eapply Hmin.
        - exfalso. by eapply Hkmin. }
      destruct (token_at_unique _ _ _ _ _ _ _ Hk Ht) as [-> ->].
      apply bracket_loop_spec.
    + exfalso. by eapply Hm.
  - intros message Hno. unfold estimateAgeBracket.
    pose proof (match_age_first message None) as Hm.
    destruct (match_age None message) as [[e1 e2]|]; [|done].
    destruct Hm as (k & Hk & _). exfalso. by eapply Hno.
Qed.

(** The token of the first sample text sits at index 5 and is worth 45. *)
Example first_token_sample : first_token (JS.lit "I am 45 today") 5 45.
Proof.
  exists 52%N, 53%N. split; [by vm_compute|]. split; [done|].
  intros j e1 e2 Hj (A & B & Da & Db & _).
  do 5 (destruct j as [|j]; [vm_compute in A, B;
    injection A as <-; injection B as <-; discriminate|]).
  lia.
Qed.

(** ** Word-limit trim *)

Section Split.

Variable sep : N.

Lemma split_length_pos s : 0 < length (JS.split sep s).
Proof.
  induction s as [|c s IH]; simpl; [lia|].
  destruct (c =? sep)%N; [simpl; lia|].
  destruct (JS.split sep s); simpl in *; lia.
Qed.

Lemma split_no_sep t : sep ∉ t → JS.split sep t = [t].
Proof.
  induction t as [|c t IH]; intros Hn; [done|]. simpl.
  apply not_elem_of_cons in Hn as [Hc Ht].
  destruct (N.eqb_spec c sep); [congruence|]. by rewrite IH.
Qed.

Lemma split_app_sep w r :
  sep ∉ w → JS.split sep (w ++ sep :: r) = w :: JS.split sep r.
Proof.
  induction w as [|c w IH]; intros Hn; simpl.
  - by rewrite N.eqb_refl.
  - apply not_elem_of_cons in Hn as [Hc Hw].
    destruct (N.eqb_spec c sep); [congruence|]. by rewrite IH.
Qed.

Lemma split_pieces s : Forall (λ w, sep ∉ w) (JS.split sep s).
Proof.
  induction s as [|c s IH]; simpl.
  - repeat constructor. apply not_elem_of_nil.
  - destruct (N.eqb_spec c sep) as [->|Hc].
    + constructor; [apply not_elem_of_nil | done].
    + destruct (JS.split sep s) as [|w ws].
      * repeat constructor.
        apply not_elem_of_cons. split; [congruence | apply not_elem_of_nil].
      * inversion IH as [|? ? Hw Hws]; subst. constructor; [|done].
        apply not_elem_of_cons. split; [congruence | done].
Qed.

Lemma split_length_app s t :
  sep ∉ t → length (JS.split sep (s ++ t)) = length (JS.split sep s).
Proof.
  intros Ht. induction s as [|c s IH]; simpl.
  - by rewrite split_no_sep.
  - destruct (c =? sep)%N; simpl; [by rewrite IH|].
    pose proof (split_length_pos (s ++ t)). pose proof (split_length_pos s).
    destruct (JS.split sep (s ++ t)), (JS.split sep s); simpl in *; lia.
Qed.

Lemma join_cons_cons s w w' ws :
  JS.join s (w :: w' :: ws) = w ++ s ++ JS.join s (w' :: ws).
Proof. reflexivity. Qed.

Lemma split_join ws :
  ws ≠ [] → Forall (λ w, sep ∉ w) ws → JS.split sep (JS.join [sep] ws) = ws.
Proof.
  induction ws as [|w ws IH]; [done|]. intros _ Hall.
  inversion Hall as [|? ? Hw Hws]; subst.
  destruct ws as [|w' ws].
  - simpl. by apply split_no_sep.
  - rewrite join_cons_cons.
    change ([sep] ++ JS.join [sep] (w' :: ws))
      with (sep :: JS.join [sep] (w' :: ws)).
    rewrite split_app_sep by done. by rewrite IH.
Qed.

Lemma join_split s : JS.join [sep] (JS.split sep s) = s.
Proof.
  induction s as [|c s IH]; [done|]. simpl.
  pose proof (split_length_pos s) as Hp.
  destruct (N.eqb_spec c sep) as [->|Hc].
  - destruct (JS.split sep s) eqn:E; [simpl in Hp; lia|].
    rewrite <- IH. reflexivity.
  - destruct (JS.split sep s) as [|w [|w' ws]] eqn:E; [simpl in Hp; lia| |];
      rewrite <- IH; reflexivity.
Qed.

End Split.

Lemma MAX_WORDS_pos : 0 < MAX_WORDS.
Proof. unfold MAX_WORDS. lia. Qed.

Lemma ellipsis_no_space : 32%N ∉ JS.lit "...".
Proof. apply (bool_decide_unpack _). by vm_compute. Qed.

(** The trimmed text has exactly [MAX_WORDS] space-separated pieces. *)
Lemma trimmed_pieces words :
  MAX_WORDS < length words → Forall (λ w, 32%N ∉ w) words →
  JS.split 32 (JS.join (JS.lit " ") (take MAX_WORDS words)) = take MAX_WORDS words ∧
  length (take MAX_WORDS words) = MAX_WORDS.
Proof.
  intros Hlen Hall. pose proof MAX_WORDS_pos as Hpos.
  assert (Hl : length (take MAX_WORDS words) = MAX_WORDS)
    by (rewrite length_take; lia).
  split; [|done].
  change (JS.lit " ") with [32%N]. apply split_join.
  - intros E. rewrite E in Hl. simpl in Hl. lia.
  - by apply Forall_take.
Qed.

(** C5, amended: the trim splits on the space character; above 200
    pieces it returns the first 200 joined by single spaces with the
    ellipsis appended (which is again a text of exactly 200 pieces),
    otherwise the input unchanged; it is idempotent. *)
Theorem limitResponseLength_space_split (response : jsstring) :
  let words := JS.split 32 response in
  (length words ≤ MAX_WORDS → limitResponseLength response = response) ∧
  (MAX_WORDS < length words →
     limitResponseLength response =
       JS.join (JS.lit " ") (take MAX_WORDS words) ++ JS.lit "..." ∧
     JS.split 32 (JS.join (JS.lit " ") (take MAX_WORDS words))
       = take MAX_WORDS words ∧
     length (take MAX_WORDS words) = MAX_WORDS ∧
     length (JS.split 32 (limitResponseLength response)) = MAX_WORDS) ∧
  limitResponseLength (limitResponseLength response)
    = limitResponseLength response.
Proof.
  cbv zeta.
  assert (Hbig : MAX_WORDS < length (JS.split 32 response) →
     limitResponseLength response =
       JS.join (JS.lit " ") (take MAX_WORDS (JS.split 32 response)) ++ JS.lit "..." ∧
     length (JS.split 32 (limitResponseLength response)) = MAX_WORDS).
  { intros Hlen. unfold limitResponseLength at 1 2.
    destruct (Nat.ltb_spec MAX_WORDS (length (JS.split 32 response))); [|lia].
    split; [done|].
    rewrite split_length_app by apply ellipsis_no_space.
    destruct (trimmed_pieces _ Hlen (split_pieces 32 response)) as [-> ->].
    done. }
  assert (Hsmall : ∀ r, length (JS.split 32 r) ≤ MAX_WORDS →
                        limitResponseLength r = r).
  { intros r Hlen. unfold limitResponseLength.
    destruct (Nat.ltb_spec MAX_WORDS (length (JS.split 32 r))); [lia|done]. }
  split; [apply Hsmall|]. split.
  - intros Hlen. destruct (Hbig Hlen) as [E L].
    destruct (trimmed_pieces _ Hlen (split_pieces 32 response)) as [S1 S2].
    done.
  - destruct (Nat.le_gt_cases (length (JS.split 32 response)) MAX_WORDS) as [Hle|Hgt].
    + by rewrite !(Hsmall response Hle).
    + apply Hsmall. destruct (Hbig Hgt) as [_ ->]. lia.
Qed.

(** C5 as stated fails: a reply of 201 whitespace-separated words comes
    back unchanged, without an ellipsis. *)
Lemma limitResponseLength_not_whitespace :
  length (whitespace_words line_per_word) = 201 ∧
  limitResponseLength line_per_word = line_per_word ∧
  endsWith (limitResponseLength line_per_word) (JS.lit "...") = false.
Proof. by vm_compute. Qed.

(** A 201-piece input: the result is the first 200 pieces and the
    ellipsis. *)
Example limitResponseLength_201 :
  let x := JS.join (JS.lit " ") (replicate 201 (JS.lit "w")) in
  length (JS.split 32 x) = 201 ∧
  limitResponseLength x
    = JS.join (JS.lit " ") (replicate 200 (JS.lit "w")) ++ JS.lit "...".
Proof. by vm_compute. Qed.

(** ** Chunked delivery *)

Lemma MESSAGE_CHUNK_LENGTH_pos : 0 < MESSAGE_CHUNK_LENGTH.
Proof. unfold MESSAGE_CHUNK_LENGTH. lia. Qed.

Lemma substring_chunk (s : jsstring) i n :
  JS.substring s i (i + n) = take n (drop i s).
Proof. unfold JS.substring. f_equal. lia. Qed.

Lemma sendMessage_ok e chatId text w :
  send_ok e (attempts w) = true →
  sendMessage e chatId text w
    = (Ok tt, set_outbox (λ o, o ++ [(chatId, text)]) (set_attempts S w)).
Proof. unfold sendMessage. by intros ->. Qed.

Lemma sendMessage_fail e chatId text w :
  send_ok e (attempts w) = false →
  sendMessage e chatId text w = (Throw, set_attempts S w).
Proof. unfold sendMessage. by intros ->. Qed.

Lemma sendLongMessage_loop_chunks e chatId (message : jsstring) fuel :
  ∀ i w, ∃ chunks,
    let r := sendLongMessage_loop fuel e chatId message i w in
    outbox r.2 = outbox w ++ map (pair chatId) chunks ∧
    Forall (λ c : jsstring, length c ≤ MESSAGE_CHUNK_LENGTH) chunks ∧
    concat chunks `prefix_of` drop i message ∧
    ((∀ n, send_ok e n = true) → length message - i ≤ fuel →
       r.1 = Ok tt ∧ concat chunks = drop i message).
Proof.
  pose proof MESSAGE_CHUNK_LENGTH_pos as Hpos.
  induction fuel as [|fuel IH]; intros i w; cbn [sendLongMessage_loop].
  - exists []. cbn. rewrite app_nil_r. repeat split; [constructor | apply prefix_nil |].
    symmetry. apply drop_ge. lia.
  - destruct (Nat.ltb_spec i (length message)) as [Hi|Hi].
    + unfold bind. rewrite substring_chunk.
      destruct (send_ok e (attempts w)) eqn:Hs.
      * rewrite (sendMessage_ok _ _ _ _ Hs).
        destruct (IH (i + MESSAGE_CHUNK_LENGTH)
                    (set_outbox (λ o, o ++ [(chatId, take MESSAGE_CHUNK_LENGTH (drop i message))])
                       (set_attempts S w)))
          as (chunks & Ho & Hall & Hpre & Hfull).
        exists (take MESSAGE_CHUNK_LENGTH (drop i message) :: chunks).
        cbv zeta in *. rewrite Ho. cbn [set_outbox set_attempts outbox].
        assert (Hsplit : drop i message
                  = take MESSAGE_CHUNK_LENGTH (drop i message)
                    ++ drop (i + MESSAGE_CHUNK_LENGTH) message).
        { rewrite <- drop_drop. symmetry. apply take_drop. }
        repeat split.
        -- by rewrite <- app_assoc.
        -- constructor; [rewrite length_take; lia | done].
        -- rewrite Hsplit at 2. cbn [concat]. by apply prefix_app.
        -- apply Hfull; [done | lia].
        -- cbn [concat]. rewrite Hsplit at 2. f_equal. apply Hfull; [done | lia].
      * rewrite (sendMessage_fail _ _ _ _ Hs). exists []. cbn.
        rewrite app_nil_r.
        split; [done|]. split; [constructor|]. split; [apply prefix_nil|].
        intros Hok. rewrite Hok in Hs. discriminate.
    + exists []. cbn. rewrite app_nil_r.
      repeat split; [constructor | apply prefix_nil |].
      symmetry. apply drop_ge. lia.
Qed.

(** C6: the messages delivered by [sendLongMessage] are slices of at
    most 4000 code units whose concatenation is a prefix of the text;
    when the transport accepts every send, the call completes and the
    concatenation is the whole text. *)
Theorem sendLongMessage_roundtrip e chatId (message : jsstring) w :
  ∃ chunks,
    let r := sendLongMessage e chatId message w in
    outbox r.2 = outbox w ++ map (pair chatId) chunks ∧
    Forall (λ c : jsstring, length c ≤ 4000) chunks ∧
    concat chunks `prefix_of` message ∧
    ((∀ n, send_ok e n = true) → r.1 = Ok tt ∧ concat chunks = message).
Proof.
  destruct (sendLongMessage_loop_chunks e chatId message (length message) 0 w)
    as (chunks & Ho & Hall & Hpre & Hfull).
  exists chunks. cbv zeta in *. unfold sendLongMessage.
  rewrite drop_0 in *. repeat split; try done; apply Hfull; try done; lia.
Qed.

(** ** Frame reasoning for the turn monad *)

Section Preserves.

Context (R : relation world) `{!PreOrder R}.

Lemma preserves_ret {A} (a : A) : preserves R (ret a).
Proof. intros w. reflexivity. Qed.

Lemma preserves_gets {A} (f : world → A) : preserves R (gets f).
Proof. intros w. reflexivity. Qed.

Lemma preserves_throw {A} : preserves R (λ w, (@Throw A, w)).
Proof. intros w. reflexivity. Qed.

Lemma preserves_bind {A B} (c : M A) (k : A → M B) :
  preserves R c → (∀ a, preserves R (k a)) → preserves R (bind c k).
Proof.
  intros Hc Hk w. unfold bind. specialize (Hc w).
  destruct (c w) as [[a|] w1]; [|done].
  etrans; [exact Hc | apply Hk].
Qed.

Lemma preserves_try_catch {A} (c h : M A) :
  preserves R c → preserves R h → preserves R (try_catch c h).
Proof.
  intros Hc Hh w. unfold try_catch. specialize (Hc w).
  destruct (c w) as [[a|] w1]; [done|].
  etrans; [exact Hc | apply Hh].
Qed.

Lemma preserves_modify f : (∀ w, R w (f w)) → preserves R (modify f).
Proof. intros Hf w. apply Hf. Qed.

Lemma preserves_db_query ok f : (∀ w, R w (f w)) → preserves R (db_query ok f).
Proof. intros Hf w. unfold db_query. destruct ok; [apply Hf | reflexivity]. Qed.

Lemma preserves_for_of {A} (l : list A) (f : A → M unit) :
  (∀ x, preserves R (f x)) → preserves R (for_of l f).
Proof.
  intros Hf. induction l as [|x l IH]; cbn [for_of].
  - apply preserves_ret.
  - apply preserves_bind; [apply Hf | by intros _].
Qed.

(** The relation ignores the transport log and the request log. *)
Hypothesis R_attempts : ∀ f w, R w (set_attempts f w).
Hypothesis R_outbox : ∀ f w, R w (set_outbox f w).
Hypothesis R_requests : ∀ x w, R w (set_requests (λ q, q ++ [x]) w).

Lemma preserves_sendMessage e chatId text :
  preserves R (sendMessage e chatId text).
Proof.
  intros w. unfold sendMessage. destruct (send_ok e (attempts w)); cbn [snd].
  - etrans; [apply (R_attempts S) | apply R_outbox].
  - apply R_attempts.
Qed.

Lemma preserves_sendLongMessage_loop e chatId message fuel :
  ∀ i, preserves R (sendLongMessage_loop fuel e chatId message i).
Proof.
  induction fuel as [|fuel IH]; intros i; cbn [sendLongMessage_loop].
  - apply preserves_ret.
  - destruct (i <? length message); [|apply preserves_ret].
    apply preserves_bind; [apply preserves_sendMessage | intros _; apply IH].
Qed.

Lemma preserves_sendLongMessage e chatId message :
  preserves R (sendLongMessage e chatId message).
Proof. apply preserves_sendLongMessage_loop. Qed.

Lemma preserves_getChatHistory e p : preserves R (getChatHistory e p).
Proof.
  unfold getChatHistory. apply preserves_try_catch; [|apply preserves_ret].
  apply preserves_bind; [apply preserves_db_query; reflexivity | intros _].
  apply preserves_bind; [apply preserves_gets | intros ?; apply preserves_ret].
Qed.

Lemma preserves_getAIResponse JSON_stringify e userInput history ctx :
  preserves R (getAIResponse JSON_stringify e userInput history ctx).
Proof.
  unfold getAIResponse. apply preserves_try_catch; [|apply preserves_ret].
  apply preserves_bind; [apply preserves_gets | intros earlier].
  apply preserves_bind; [apply preserves_modify, R_requests | intros _].
  intros w. destruct (backend e _ _); reflexivity.
Qed.

Lemma preserves_generateCheckInMessage JSON_stringify e p m :
  preserves R (generateCheckInMessage JSON_stringify e p m).
Proof.
  unfold generateCheckInMessage.
  apply preserves_try_catch; [|apply preserves_ret].
  apply preserves_bind; [apply preserves_db_query; reflexivity | intros _].
  apply preserves_bind; [apply preserves_gets | intros ?].
  apply preserves_getAIResponse.
Qed.

(** The relation ignores rows appended to the two append-only tables,
    under a condition [admissible] on chat rows. *)
Variable admissible : chat_row → Prop.
Hypothesis R_chat : ∀ r w,
  admissible r → R w (set_chat_history (λ h, h ++ [r]) w).
Hypothesis R_suggestions : ∀ f w, R w (set_suggestions f w).

Lemma preserves_storeMessage e p text isBot m :
  admissible {| phone_number := p; message := text; is_bot := isBot;
                mood_col := m |} →
  preserves R (storeMessage e p text isBot m).
Proof.
  intros Hadm. unfold storeMessage.
  apply preserves_try_catch; [|apply preserves_ret].
  apply preserves_db_query. intros w. by apply R_chat.
Qed.

Lemma preserves_saveSuggestion e p m s : preserves R (saveSuggestion e p m s).
Proof.
  unfold saveSuggestion. apply preserves_try_catch; [|apply preserves_ret].
  apply preserves_db_query. intros w. apply R_suggestions.
Qed.

Lemma preserves_checkInUser JSON_stringify e p :
  (∀ text, admissible {| phone_number := p; message := text; is_bot := true;
                         mood_col := None |}) →
  preserves R (checkInUser JSON_stringify e p).
Proof.
  intros Hadm. unfold checkInUser.
  apply preserves_try_catch; [|apply preserves_ret].
  apply preserves_bind; [apply preserves_getChatHistory | intros history].
  apply preserves_bind; [apply preserves_generateCheckInMessage | intros text].
  apply preserves_bind; [apply preserves_sendMessage | intros _].
  by apply preserves_storeMessage.
Qed.

Lemma preserves_sendDailyCheckIn JSON_stringify j :
  (∀ p text, admissible {| phone_number := p; message := text; is_bot := true;
                           mood_col := None |}) →
  preserves R (sendDailyCheckIn JSON_stringify j).
Proof.
  intros Hadm. unfold sendDailyCheckIn.
  apply preserves_try_catch; [|apply preserves_ret].
  apply preserves_bind; [apply preserves_db_query; reflexivity | intros _].
  apply preserves_bind; [apply preserves_gets | intros rows].
  apply preserves_for_of. intros p. by apply preserves_checkInUser.
Qed.

Lemma preserves_on_active sentiment_score JSON_stringify e p userMessage :
  (∀ text m, admissible {| phone_number := p; message := text; is_bot := false;
                           mood_col := Some m |}) →
  (∀ text, admissible {| phone_number := p; message := text; is_bot := true;
                         mood_col := None |}) →
  preserves R (on_active sentiment_score JSON_stringify e p userMessage).
Proof.
  intros Huser Hbot. unfold on_active. cbv zeta.
  apply preserves_bind; [by apply preserves_storeMessage | intros _].
  apply preserves_bind; [apply preserves_getChatHistory | intros history].
  apply preserves_bind; [apply preserves_db_query; reflexivity | intros _].
  apply preserves_bind; [apply preserves_gets | intros u].
  apply preserves_bind; [apply preserves_getAIResponse | intros aiReply].
  apply preserves_bind; [by apply preserves_storeMessage | intros _].
  apply preserves_bind; [apply preserves_sendLongMessage | intros _].
  destruct (_ && _); [|apply preserves_ret].
  apply preserves_bind; [apply preserves_getAIResponse | intros s].
  apply preserves_bind; [apply preserves_saveSuggestion | intros _].
  apply preserves_sendMessage.
Qed.

(** The relation ignores the session objects and the users table. *)
Hypothesis R_userStates : ∀ f w, R w (set_userStates f w).
Hypothesis R_userDataCache : ∀ f w, R w (set_userDataCache f w).
Hypothesis R_users : ∀ f w, R w (set_users f w).

Lemma preserves_saveUserProfile e p data :
  preserves R (saveUserProfile e p data).
Proof.
  unfold saveUserProfile. apply preserves_try_catch; [|apply preserves_throw].
  apply preserves_db_query. intros w. apply R_users.
Qed.

Lemma preserves_set_state p s : preserves R (set_state p s).
Proof. apply preserves_modify. intros w. apply R_userStates. Qed.

Lemma preserves_handler toLowerCase sentiment_score JSON_stringify e msg :
  (∀ p text m, admissible {| phone_number := p; message := text;
                             is_bot := false; mood_col := Some m |}) →
  (∀ p text, admissible {| phone_number := p; message := text; is_bot := true;
                           mood_col := None |}) →
  preserves R (handler toLowerCase sentiment_score JSON_stringify e msg).
Proof.
  intros Huser Hbot. unfold handler.
  apply preserves_try_catch; [|apply preserves_sendMessage].
  unfold handler_try. destruct (_ || _); [apply preserves_ret|]. cbv zeta.
  apply preserves_bind; [apply preserves_gets | intros state].
  destruct (_ && _).
  { apply preserves_bind; [apply preserves_set_state | intros _].
    apply preserves_sendMessage. }
  unfold dispatch.
  apply preserves_bind; [apply preserves_gets | intros state'].
  repeat case_bool_decide.
  - unfold on_awaiting_name. cbv zeta.
    apply preserves_bind;
      [apply preserves_modify; intros w; apply R_userDataCache | intros _].
    case_bool_decide.
    + apply preserves_bind; [apply preserves_saveUserProfile | intros _].
      apply preserves_bind; [apply preserves_sendMessage | intros _].
      apply preserves_set_state.
    + apply preserves_bind; [apply preserves_set_state | intros _].
      apply preserves_sendMessage.
  - unfold on_awaiting_gender. cbv zeta.
    apply preserves_bind; [apply preserves_gets | intros cached].
    apply preserves_bind; [apply preserves_saveUserProfile | intros _].
    apply preserves_bind; [apply preserves_set_state | intros _].
    apply preserves_sendMessage.
  - by apply preserves_on_active.
  - apply preserves_ret.
Qed.

End Preserves.

(** ** The message handler *)

(** The fixed texts are compared by name, not by value. *)
Opaque persona greeting steady_prompt apology ai_fallback checkin_fallback
  suggestion_prompt.

(** Applying a frame lemma; its instance argument is found by
    resolution. *)
Ltac frame lem := apply lem; try apply _.

(** Side conditions of the frame lemmas. *)
Ltac frame_side :=
  first [ apply _ | by intros | intros; by split ].

Ltac world_simpl :=
  cbn [fst snd set_userStates set_userDataCache set_chat_history set_users
       set_suggestions set_outbox set_requests set_attempts userStates
       userDataCache chat_history users suggestions outbox requests attempts]
    in *.

(** Case analysis on the outcomes of the sends and of the profile write. *)
Ltac case_outcomes :=
  repeat (world_simpl;
          match goal with
          | |- context [if send_ok ?e ?n then _ else _] =>
            destruct (send_ok e n) eqn:?
          | |- context [if upsert_ok ?e then _ else _] =>
            destruct (upsert_ok e) eqn:?
          end);
  world_simpl.

Ltac turn_unfold :=
  unfold set_state;
  unfold try_catch, bind, gets, modify, ret, db_query, sendMessage.

Lemma resolveGender_priority t :
  resolveGender t =
    if JS.includes t (JS.lit "skip") then prefer_not_to_say
    else if JS.includes t (JS.lit "girl") then female
    else if JS.includes t (JS.lit "boy") then male
    else other_gender.
Proof.
  unfold resolveGender.
  by destruct (JS.includes t (JS.lit "skip")), (JS.includes t (JS.lit "girl")),
    (JS.includes t (JS.lit "boy")).
Qed.

Lemma upsert_user_gender e p data us :
  gender_col <$> upsert_user e p data us !! p = Some (Some (data_gender data)).
Proof.
  unfold upsert_user. destruct (us !! p); by rewrite lookup_insert_eq.
Qed.

Section Handler.

Variable toLowerCase : jsstring -> jsstring.
Variable sentiment_score : jsstring -> Z.
Variable JSON_stringify : context -> jsstring.

Local Abbreviation handle :=
  (handler toLowerCase sentiment_score JSON_stringify).
Local Abbreviation handle_try :=
  (handler_try toLowerCase sentiment_score JSON_stringify).
Local Abbreviation dispatch_to :=
  (dispatch toLowerCase sentiment_score JSON_stringify).
Local Abbreviation contained :=
  (failures_contained toLowerCase sentiment_score JSON_stringify).

Lemma handler_try_filtered e message w :
  isStatus message || JS.includes (from message) (JS.lit "@g.us") = true →
  handle_try e message w = (Ok tt, w).
Proof. unfold handler_try. by intros ->. Qed.

Lemma dispatch_no_session e p userMessage lowerMessage w :
  userStates w !! p = None →
  dispatch_to e p userMessage lowerMessage w = (Ok tt, w).
Proof.
  intros Hst. unfold dispatch, bind, gets. rewrite Hst.
  by rewrite !bool_decide_eq_false_2.
Qed.

(** With a session, the handler runs the branch of the session state. *)
Lemma handler_try_session_state e message w s :
  isStatus message = false →
  JS.includes (from message) (JS.lit "@g.us") = false →
  userStates w !! from message = Some s →
  handle_try e message w =
    match s with
    | awaiting_name =>
      on_awaiting_name toLowerCase e (from message) (JS.trim (body message)) w
    | awaiting_gender =>
      on_awaiting_gender e (from message)
        (toLowerCase (JS.trim (body message))) w
    | active =>
      on_active sentiment_score JSON_stringify e (from message)
        (JS.trim (body message)) w
    end.
Proof.
  intros Hstatus Hgroup Hst. unfold handler_try.
  rewrite Hstatus, Hgroup. cbn [orb]. cbv zeta.
  unfold bind at 1. unfold gets at 1. rewrite Hst.
  rewrite (bool_decide_eq_false_2 (Some _ = None)) by done.
  rewrite andb_false_r.
  unfold dispatch. unfold bind at 1. unfold gets at 1. rewrite Hst.
  destruct s; repeat case_bool_decide; congruence.
Qed.

(** C7: for a sender without a session, a text whose lower-cased form
    contains the trigger creates the session in awaiting_name, writes
    nothing to the store and, the transport accepting the send, delivers
    the greeting and nothing else; any other text leaves the world as it
    was and sends nothing. *)
Theorem new_sender_turn e message w :
  userStates w !! from message = None →
  let lowerMessage := toLowerCase (JS.trim (body message)) in
  let r := handle e message w in
  (JS.includes lowerMessage (JS.lit "hey stink") = true →
   isStatus message = false →
   JS.includes (from message) (JS.lit "@g.us") = false →
     userStates r.2 = <[from message := awaiting_name]> (userStates w) ∧
     userDataCache r.2 = userDataCache w ∧
     chat_history r.2 = chat_history w ∧
     users r.2 = users w ∧
     suggestions r.2 = suggestions w ∧
     requests r.2 = requests w ∧
     (send_ok e (attempts w) = true →
        r.1 = Ok tt ∧ outbox r.2 = outbox w ++ [(from message, greeting)])) ∧
  (JS.includes lowerMessage (JS.lit "hey stink") = false → r = (Ok tt, w)).
Proof.
  intros Hst. cbv zeta. split.
  - intros Htrig Hstatus Hgroup.
    unfold handler, handler_try.
    rewrite Hstatus, Hgroup. cbn [orb]. cbv zeta.
    turn_unfold. rewrite Hst, Htrig. rewrite bool_decide_eq_true_2 by done.
    cbn [andb]. world_simpl.
    destruct (send_ok e (attempts w)); world_simpl.
    + by repeat split.
    + destruct (send_ok e (S (attempts w))); world_simpl;
        (do 6 (split; [reflexivity|])); intros Hf; discriminate Hf.
  - intros Htrig. unfold handler, try_catch.
    destruct (isStatus message || JS.includes (from message) (JS.lit "@g.us"))
      eqn:Hf.
    + by rewrite handler_try_filtered.
    + unfold handler_try. rewrite Hf. cbv zeta.
      unfold bind at 1. unfold gets at 1. rewrite Htrig. cbn [andb].
      by rewrite dispatch_no_session.
Qed.

(** C1, amended: for every message handled in awaiting_gender whose
    profile write succeeds, the stored gender is prefer-not-to-say when
    the lower-cased text contains skip, else female when it contains
    girl, else male when it contains boy, else other. *)
Theorem gender_resolution_priority e message w :
  isStatus message = false →
  JS.includes (from message) (JS.lit "@g.us") = false →
  userStates w !! from message = Some awaiting_gender →
  upsert_ok e = true →
  let lowerMessage := toLowerCase (JS.trim (body message)) in
  gender_col <$> users (handle e message w).2 !! from message =
    Some (Some
      (if JS.includes lowerMessage (JS.lit "skip") then prefer_not_to_say
       else if JS.includes lowerMessage (JS.lit "girl") then female
       else if JS.includes lowerMessage (JS.lit "boy") then male
       else other_gender)).
Proof.
  intros Hstatus Hgroup Hst Hup. cbv zeta.
  rewrite <- resolveGender_priority.
  unfold handler, try_catch.
  rewrite (handler_try_session_state _ _ _ _ Hstatus Hgroup Hst).
  unfold on_awaiting_gender, saveUserProfile. turn_unfold.
  rewrite Hup. world_simpl.
  destruct (send_ok e (attempts w)); world_simpl;
    [|destruct (send_ok e (S (attempts w))); world_simpl];
    apply upsert_user_gender.
Qed.

Lemma failures_contained_holds e : contained e.
Proof.
  unfold failures_contained.
  repeat split.
  - intros p text isBot m w. unfold storeMessage. turn_unfold.
    by destruct (insert_ok e isBot).
  - intros p w. unfold getChatHistory. turn_unfold.
    destruct (history_ok e); eauto.
  - intros p m s w. unfold saveSuggestion. turn_unfold.
    by destruct (suggestion_ok e).
  - intros userInput history ctx w. unfold getAIResponse. turn_unfold.
    world_simpl. destruct (backend e _ _); cbn [fst]; eauto.
    eexists; split; [done|]. discriminate.
  - intros message w w1 Hthrow Hsend. unfold handler, try_catch.
    rewrite Hthrow. by apply sendMessage_ok.
Qed.

(** C2, amended: when the profile write of an onboarding turn fails, the
    error leaves [saveUserProfile], no acknowledgment is sent, the store
    and the session state stay as they were, and the handler answers
    with the apology (the turn ends in an exception only when that send
    fails too); the other failures behave as [failures_contained] says. *)
Theorem upsert_failure_is_apologised e message w :
  upsert_ok e = false →
  isStatus message = false →
  JS.includes (from message) (JS.lit "@g.us") = false →
  userStates w !! from message = Some awaiting_gender ∨
  (userStates w !! from message = Some awaiting_name ∧
   detectGenderFromName toLowerCase (JS.trim (JS.trim (body message)))
     ≠ unknown_gender) →
  let r := handle e message w in
  (userStates r.2 = userStates w ∧ users r.2 = users w ∧
   chat_history r.2 = chat_history w ∧ suggestions r.2 = suggestions w ∧
   (send_ok e (attempts w) = true →
      r.1 = Ok tt ∧ outbox r.2 = outbox w ++ [(from message, apology)]) ∧
   (send_ok e (attempts w) = false →
      r.1 = Throw ∧ outbox r.2 = outbox w)) ∧
  contained e.
Proof.
  intros Hup Hstatus Hgroup Hst. cbv zeta.
  split; [|apply failures_contained_holds].
  unfold handler, try_catch.
  destruct Hst as [Hst|[Hst Hgender]];
    rewrite (handler_try_session_state _ _ _ _ Hstatus Hgroup Hst).
  - unfold on_awaiting_gender, saveUserProfile. turn_unfold.
    rewrite Hup. world_simpl.
    destruct (send_ok e (attempts w)); world_simpl;
      (do 4 (split; [reflexivity|])); split; intros Hs;
      first [discriminate Hs | by split].
  - unfold on_awaiting_name, saveUserProfile. turn_unfold.
    rewrite (bool_decide_eq_true_2 (_ ≠ unknown_gender)) by done.
    rewrite Hup. world_simpl.
    destruct (send_ok e (attempts w)); world_simpl;
      (do 4 (split; [reflexivity|])); split; intros Hs;
      first [discriminate Hs | by split].
Qed.

(** *** Session invariant *)

#[local] Instance same_session_preorder : PreOrder same_session.
Proof.
  split.
  - by intros w.
  - intros w1 w2 w3 [A B] [C D]. split; congruence.
Qed.

Lemma session_step_then p w w1 w2 :
  session_step p w w1 → same_session w1 w2 → session_step p w w2.
Proof.
  intros Hstep [Hs Hc]. destruct Hstep as [[A B]|A B C|n s A B C|A B C].
  - apply step_same. split; congruence.
  - apply step_trigger; congruence.
  - apply (step_name _ _ _ n s); congruence.
  - apply step_gender; congruence.
Qed.

Lemma preserves_session_sendMessage e chatId text :
  preserves same_session (sendMessage e chatId text).
Proof. apply preserves_sendMessage; frame_side. Qed.

Lemma preserves_session_on_active e p userMessage :
  preserves same_session
    (on_active sentiment_score JSON_stringify e p userMessage).
Proof.
  apply (preserves_on_active same_session) with (admissible := λ _, True);
    frame_side.
Qed.

Lemma preserves_session_sendDailyCheckIn j :
  preserves same_session (sendDailyCheckIn JSON_stringify j).
Proof.
  apply (preserves_sendDailyCheckIn same_session) with (admissible := λ _, True);
    frame_side.
Qed.

Lemma handler_try_session e message w :
  session_step (from message) w (handle_try e message w).2.
Proof.
  unfold handler_try.
  destruct (isStatus message || _); [by apply step_same|]. cbv zeta.
  unfold bind at 1. unfold gets at 1.
  destruct (JS.includes _ _ && bool_decide (userStates w !! from message = None))
    eqn:Htrig.
  - apply andb_true_iff in Htrig as [_ Hnone%bool_decide_eq_true].
    turn_unfold. case_outcomes; by apply step_trigger.
  - unfold dispatch. unfold bind at 1. unfold gets at 1.
    destruct (userStates w !! from message) as [[| |]|] eqn:Hst;
      repeat (case_bool_decide; try congruence).
    + unfold on_awaiting_name, saveUserProfile. turn_unfold.
      assert (Hid : userStates w = <[from message := awaiting_name]> (userStates w))
        by (symmetry; by apply insert_id).
      case_bool_decide; case_outcomes; eapply step_name; done.
    + unfold on_awaiting_gender, saveUserProfile. turn_unfold.
      case_outcomes; first [by apply step_gender | by apply step_same].
    + apply step_same. apply preserves_session_on_active.
    + by apply step_same.
Qed.

Lemma handler_session e message w :
  session_step (from message) w (handle e message w).2.
Proof.
  unfold handler, try_catch.
  pose proof (handler_try_session e message w) as Hstep.
  destruct (handle_try e message w) as [[[]|] w1]; [done|].
  eapply session_step_then; [exact Hstep|].
  apply preserves_session_sendMessage.
Qed.

Lemma session_inv_step p w w' :
  session_inv w → session_step p w w' → session_inv w'.
Proof.
  intros Hinv Hstep q. destruct (Hinv q) as [H1 H2].
  destruct Hstep as [[A B]|A B C|n s A B C|A B C]; rewrite ?A, ?B, ?C.
  - done.
  - destruct (decide (p = q)) as [->|Hne].
    + rewrite lookup_insert_eq. split; [intros [|]; discriminate | eauto].
    + by rewrite lookup_insert_ne.
  - destruct (decide (p = q)) as [->|Hne].
    + rewrite !lookup_insert_eq. eauto.
    + by rewrite !lookup_insert_ne.
  - destruct (decide (p = q)) as [->|Hne].
    + rewrite lookup_insert_eq. split; [intros _; apply H1; eauto | eauto].
    + by rewrite lookup_insert_ne.
Qed.

Lemma session_step_cache_kept p w w' q :
  session_step p w w' →
  is_Some (userDataCache w !! q) → is_Some (userDataCache w' !! q).
Proof.
  intros [[A B]|A B C|n s A B C|A B C]; rewrite ?A, ?B, ?C; try done.
  intros Hq. destruct (decide (p = q)) as [->|Hne].
  - rewrite lookup_insert_eq. eauto.
  - by rewrite lookup_insert_ne.
Qed.

Lemma reachable_session_inv w :
  reachable toLowerCase sentiment_score JSON_stringify w → session_inv w.
Proof.
  induction 1 as [|w Hr IH|e message w Hr IH|j w Hr IH].
  - intros p. cbn. rewrite !lookup_empty.
    split; [intros [|]; discriminate | intros [? ?]; discriminate].
  - intros p. cbn. rewrite !lookup_empty.
    split; [intros [|]; discriminate | intros [? ?]; discriminate].
  - eapply session_inv_step; [exact IH | apply handler_session].
  - eapply session_inv_step; [exact IH |].
    apply (step_same []). apply preserves_session_sendDailyCheckIn.
Qed.

(** C3, amended: in every reachable world a user whose state is
    awaiting_gender or active has a cached pending name, a cached name
    exists only for a user with a session, and no handled message removes
    a cached name: it is still there once the state is active. *)
Theorem pending_name_invariant w :
  reachable toLowerCase sentiment_score JSON_stringify w →
  (∀ p,
     (userStates w !! p = Some awaiting_gender ∨
      userStates w !! p = Some active →
      is_Some (userDataCache w !! p)) ∧
     (is_Some (userDataCache w !! p) → is_Some (userStates w !! p))) ∧
  (∀ e message p,
     is_Some (userDataCache w !! p) →
     is_Some (userDataCache (handle e message w).2 !! p)).
Proof.
  intros Hr. split.
  - by apply reachable_session_inv.
  - intros e message p. eapply session_step_cache_kept, handler_session.
Qed.

(** *** Context assembly *)

Lemma bind_run {A B} (c : M A) (k : A → M B) w a w1 :
  c w = (Ok a, w1) → bind c k w = k a w1.
Proof. unfold bind. by intros ->. Qed.

Lemma storeMessage_run e p text isBot m w :
  storeMessage e p text isBot m w =
    (Ok tt,
     if insert_ok e isBot
     then set_chat_history
            (λ h, h ++ [{| phone_number := p; message := text;
                           is_bot := isBot; mood_col := m |}]) w
     else w).
Proof. unfold storeMessage. turn_unfold. by destruct (insert_ok e isBot). Qed.

Lemma getChatHistory_ok e p w :
  history_ok e = true →
  getChatHistory e p w
    = (Ok (last_n CHAT_HISTORY_LIMIT (persisted p (chat_history w))), w).
Proof.
  intros Hok. unfold getChatHistory. turn_unfold. rewrite Hok.
  unfold select_history, last_n, persisted.
  by rewrite take_reverse, reverse_involutive.
Qed.

Lemma getChatHistory_failed e p w :
  history_ok e = false → getChatHistory e p w = (Ok [], w).
Proof. intros Hok. unfold getChatHistory. turn_unfold. by rewrite Hok. Qed.

Lemma getAIResponse_run e userInput history ctx w :
  ∃ t,
    getAIResponse JSON_stringify e userInput history ctx w =
      (Ok t,
       set_requests
         (λ q, q ++ [build_messages JSON_stringify userInput history ctx]) w).
Proof.
  unfold getAIResponse. turn_unfold. destruct (backend e _ _); eauto.
Qed.

#[local] Instance requests_extend_preorder : PreOrder requests_extend.
Proof.
  split.
  - intros w. exists []. by rewrite app_nil_r.
  - intros w1 w2 w3 [l1 H1] [l2 H2]. exists (l1 ++ l2).
    by rewrite H2, H1, app_assoc.
Qed.

Lemma requests_extend_same w w' :
  requests w' = requests w → requests_extend w w'.
Proof. intros E. exists []. by rewrite app_nil_r. Qed.

Lemma getChatHistory_run e p w :
  getChatHistory e p w
    = (Ok (if history_ok e
           then last_n CHAT_HISTORY_LIMIT (persisted p (chat_history w))
           else []), w).
Proof.
  destruct (history_ok e) eqn:Hok.
  - by apply getChatHistory_ok.
  - by apply getChatHistory_failed.
Qed.

Lemma on_active_requests e p userMessage w :
  select_user_ok e = true →
  let stored :=
    if insert_ok e false
    then chat_history w ++
           [{| phone_number := p; message := userMessage; is_bot := false;
               mood_col := Some (detectMood sentiment_score userMessage) |}]
    else chat_history w in
  ∃ later,
    requests (on_active sentiment_score JSON_stringify e p userMessage w).2 =
      requests w ++
      [build_messages JSON_stringify userMessage
         (if history_ok e
          then last_n CHAT_HISTORY_LIMIT (persisted p stored) else [])
         (user_context (users w !! p))] ++ later.
Proof.
  intros Hsel. cbv zeta. unfold on_active. cbv zeta.
  erewrite bind_run by apply storeMessage_run.
  erewrite bind_run by apply getChatHistory_run.
  erewrite bind_run by (unfold db_query; by rewrite Hsel).
  erewrite bind_run by reflexivity.
  match goal with
  | |- context [getAIResponse ?J ?e ?u ?h ?c] =>
    destruct (getAIResponse_run e u h c
                (if insert_ok e false
                 then set_chat_history
                        (λ h0, h0 ++ [{| phone_number := p; message := userMessage;
                                         is_bot := false;
                                         mood_col := Some (detectMood sentiment_score userMessage) |}]) w
                 else w)) as [aiReply Hai]
  end.
  unfold id in *. erewrite bind_run by exact Hai.
  match goal with
  | |- ∃ later, requests (?k ?w2).2 = _ =>
    assert (Hk : preserves requests_extend k)
  end.
  { assert (Hsame : ∀ w0 w1, requests w1 = requests w0 → requests_extend w0 w1)
      by apply requests_extend_same.
    assert (Hadd : ∀ x w0, requests_extend w0 (set_requests (λ q, q ++ [x]) w0))
      by (intros x w0; by exists [x]).
    frame preserves_bind.
    { apply (preserves_storeMessage requests_extend) with (admissible := λ _, True);
        first [apply _ | done | intros; by apply Hsame]. }
    intros _. frame preserves_bind.
    { frame preserves_sendLongMessage; intros; by apply Hsame. }
    intros _. destruct (_ && _); [|by frame preserves_ret].
    frame preserves_bind.
    { by frame preserves_getAIResponse. }
    intros s. frame preserves_bind.
    { frame preserves_saveSuggestion; intros; by apply Hsame. }
    intros _. frame preserves_sendMessage; intros; by apply Hsame. }
  match goal with
  | |- ∃ later, requests (?k ?w2).2 = _ => destruct (Hk w2) as [later Hl]
  end.
  exists later. rewrite Hl.
  destruct (insert_ok e false); world_simpl; by rewrite <- app_assoc.
Qed.

(** C9: the request for the reply of an active turn is the system turn
    (persona and serialized context), then the last five persisted rows
    of the sender at most, oldest first (none when the history read
    fails), each as assistant when bot-authored and as user otherwise,
    then the new user turn. *)
Theorem backend_turn_list e msg w :
  isStatus msg = false →
  JS.includes (from msg) (JS.lit "@g.us") = false →
  userStates w !! from msg = Some active →
  select_user_ok e = true →
  let p := from msg in
  let userMessage := JS.trim (body msg) in
  let stored :=
    if insert_ok e false
    then chat_history w ++
           [{| phone_number := p; message := userMessage; is_bot := false;
               mood_col := Some (detectMood sentiment_score userMessage) |}]
    else chat_history w in
  let history :=
    if history_ok e then last_n 5 (persisted p stored) else [] in
  ∃ later,
    requests (handle e msg w).2 =
      requests w ++
      [[{| turn_role := role_system;
           content := persona ++ JSON_stringify (user_context (users w !! p)) |}]
       ++ map (λ r, {| turn_role := if is_bot r then role_assistant else role_user;
                       content := message r |})
            history
       ++ [{| turn_role := role_user; content := userMessage |}]]
      ++ later.
Proof.
  intros Hstatus Hgroup Hst Hsel. cbv zeta.
  destruct (on_active_requests e (from msg) (JS.trim (body msg)) w Hsel)
    as [later Hreq].
  exists later.
  assert (Hh : requests (handle e msg w).2 =
               requests (on_active sentiment_score JSON_stringify e (from msg)
                           (JS.trim (body msg)) w).2).
  { unfold handler, try_catch.
    rewrite (handler_try_session_state _ _ _ _ Hstatus Hgroup Hst).
    destruct (on_active _ _ _ _ _ w) as [[[]|] w1]; [done|].
    unfold sendMessage. by destruct (send_ok e (attempts w1)). }
  rewrite Hh. exact Hreq.
Qed.

(** *** Moods of persisted bot messages *)

#[local] Instance bot_mood_null_kept_preorder : PreOrder bot_mood_null_kept.
Proof.
  split.
  - intros w Hw. exact Hw.
  - intros w1 w2 w3 H12 H23 H1. by apply H23, H12.
Qed.

Lemma bot_mood_null_append r w :
  null_if_bot r →
  bot_mood_null_kept w (set_chat_history (λ h, h ++ [r]) w).
Proof.
  intros Hr Hw r' Hin. world_simpl.
  apply elem_of_app in Hin as [Hin|Hin%list_elem_of_singleton].
  - by apply Hw.
  - by subst.
Qed.

Ltac bot_mood_side :=
  first [ apply _
        | intros r w0; apply bot_mood_null_append
        | intros ? w0 Hw; exact Hw
        | intros ? ? ? Hb; discriminate Hb
        | intros ? ? Hb; reflexivity ].

Lemma reachable_bot_mood_null w :
  reachable toLowerCase sentiment_score JSON_stringify w → bot_mood_null w.
Proof.
  induction 1 as [|w Hr IH|e msg w Hr IH|j w Hr IH].
  - intros r Hin. by apply elem_of_nil in Hin.
  - exact IH.
  - revert IH.
    apply (preserves_handler bot_mood_null_kept) with (admissible := null_if_bot);
      bot_mood_side.
  - revert IH.
    apply (preserves_sendDailyCheckIn bot_mood_null_kept)
      with (admissible := null_if_bot);
      bot_mood_side.
Qed.

Lemma lastMood_last_n (l : list chat_row) r :
  list.last l = Some r → lastMood (last_n CHAT_HISTORY_LIMIT l) = mood_col r.
Proof.
  intros Hl. unfold lastMood, last_n.
  apply last_Some in Hl as [l' ->].
  rewrite length_app. cbn [length]. unfold CHAT_HISTORY_LIMIT.
  rewrite drop_app_le by lia. by rewrite last_snoc.
Qed.

Lemma last_n_nil {A} (n : nat) (l : list A) :
  0 < n → (last_n n l = [] ↔ l = []).
Proof.
  intros Hn. unfold last_n. split; [|by intros ->].
  intros Hd. destruct l as [|x l]; [done|]. exfalso.
  apply (f_equal length) in Hd. rewrite length_drop in Hd.
  cbn [length] in Hd. lia.
Qed.

(** C10: in every reachable world the persisted bot-authored rows have a
    null mood; so the last mood the check-in job computes for a user whose
    most recent row is bot-authored is null, and its request says so,
    while neutral is the default taken exactly when the user has no
    persisted row (the history and profile reads succeeding). *)
Theorem bot_rows_null_mood w :
  reachable toLowerCase sentiment_score JSON_stringify w →
  (∀ r, r ∈ chat_history w → is_bot r = true → mood_col r = None) ∧
  (∀ e p, history_ok e = true →
     ∃ h, getChatHistory e p w = (Ok h, w) ∧
       (h = [] ↔ persisted p (chat_history w) = []) ∧
       (h = [] → lastMood h = Some neutral) ∧
       (∀ r, list.last (persisted p (chat_history w)) = Some r →
             is_bot r = true → lastMood h = None)) ∧
  (∀ e p r, history_ok e = true → select_user_ok e = true →
     list.last (persisted p (chat_history w)) = Some r → is_bot r = true →
     requests (checkInUser JSON_stringify e p w).2 =
       requests w ++
       [build_messages JSON_stringify (checkin_prompt None (users w !! p)) []
          ctx_isCheckIn]).
Proof.
  intros Hr. pose proof (reachable_bot_mood_null w Hr) as Hnull.
  assert (Hlast : ∀ p r, list.last (persisted p (chat_history w)) = Some r →
            is_bot r = true →
            lastMood (last_n CHAT_HISTORY_LIMIT (persisted p (chat_history w))) = None).
  { intros p r Hl Hb. rewrite (lastMood_last_n _ _ Hl). apply Hnull; [|done].
    apply last_Some_elem_of in Hl. unfold persisted in Hl.
    by apply list_elem_of_filter in Hl as [_ ?]. }
  split; [exact Hnull|]. split.
  - intros e p Hhist. eexists. split; [by apply getChatHistory_ok|].
    split; [apply last_n_nil; unfold CHAT_HISTORY_LIMIT; lia|].
    split; [by intros ->|]. apply Hlast.
  - intros e p r Hhist Hsel Hl Hb. unfold checkInUser.
    unfold try_catch at 1.
    erewrite bind_run by by apply getChatHistory_ok.
    rewrite (Hlast p r Hl Hb).
    unfold generateCheckInMessage, getAIResponse, storeMessage. turn_unfold.
    rewrite Hsel. unfold id. world_simpl.
    destruct (backend e _ _); world_simpl;
      destruct (send_ok e (attempts w)); world_simpl;
      try destruct (insert_ok e true); world_simpl; reflexivity.
Qed.

End Handler.

(** * Further properties of the code *)

(** ** Reply post-processing *)

Lemma join_app s (ws1 ws2 : list jsstring) :
  ws1 ≠ [] → ws2 ≠ [] →
  JS.join s (ws1 ++ ws2) = JS.join s ws1 ++ s ++ JS.join s ws2.
Proof.
  intros H1 H2. induction ws1 as [|w ws1 IH]; [done|].
  destruct ws1 as [|w' ws1].
  - destruct ws2 as [|v ws2]; [done|]. reflexivity.
  - change ((w :: w' :: ws1) ++ ws2) with (w :: w' :: (ws1 ++ ws2)).
    rewrite !join_cons_cons.
    change (w' :: ws1 ++ ws2) with ((w' :: ws1) ++ ws2).
    rewrite IH by done. by rewrite <- !app_assoc.
Qed.

Lemma split_app sep s t :
  JS.split sep (s ++ sep :: t) = JS.split sep s ++ JS.split sep t.
Proof.
  induction s as [|c s IH]; simpl.
  - by rewrite N.eqb_refl.
  - destruct (c =? sep)%N; [by rewrite IH|].
    rewrite IH. pose proof (split_length_pos sep s) as Hp.
    by destruct (JS.split sep s); [simpl in Hp; lia|].
Qed.

(** When [limitResponseLength] changes a reply, it cuts it at a space:
    the reply is [pre], a space and a rest, [pre] has exactly
    [MAX_WORDS] pieces, and the result is [pre] with the ellipsis. *)
Theorem limitResponseLength_cuts_at_space (response : jsstring) :
  limitResponseLength response = response ∨
  ∃ pre rest,
    response = pre ++ JS.lit " " ++ rest ∧
    length (JS.split 32 pre) = MAX_WORDS ∧
    limitResponseLength response = pre ++ JS.lit "...".
Proof.
  unfold limitResponseLength.
  destruct (Nat.ltb_spec MAX_WORDS (length (JS.split 32 response))) as [Hlen|Hlen];
    [right | by left].
  pose proof MAX_WORDS_pos as Hpos.
  destruct (trimmed_pieces _ Hlen (split_pieces 32 response)) as [Hs Hl].
  exists (JS.join (JS.lit " ") (take MAX_WORDS (JS.split 32 response))),
         (JS.join (JS.lit " ") (drop MAX_WORDS (JS.split 32 response))).
  split; [|split; [by rewrite Hs | done]].
  rewrite <- (join_split 32 response) at 1.
  rewrite <- (take_drop MAX_WORDS (JS.split 32 response)) at 1.
  change (JS.lit " ") with [32%N]. apply join_app.
  - intros E. rewrite E in Hl. simpl in Hl. lia.
  - intros E. apply (f_equal length) in E. rewrite length_drop in E.
    simpl in E. lia.
Qed.

Lemma limitResponseLength_pieces (x : jsstring) :
  length (JS.split 32 (limitResponseLength x)) ≤ MAX_WORDS.
Proof.
  unfold limitResponseLength.
  destruct (Nat.ltb_spec MAX_WORDS (length (JS.split 32 x))) as [Hlen|Hlen];
    [|done].
  rewrite split_length_app by apply ellipsis_no_space.
  destruct (trimmed_pieces _ Hlen (split_pieces 32 x)) as [-> ->]. done.
Qed.

Lemma emoji_no_space m :
  Forall (λ emoji : jsstring, (32%N ∉ emoji) ∧ emoji ≠ []) (EMOJI_RESPONSES m).
Proof.
  destruct m; repeat constructor;
    first [ apply (bool_decide_unpack _); by vm_compute | by vm_compute ].
Qed.

Lemma EMOJI_RESPONSES_length m : length (EMOJI_RESPONSES m) = 5.
Proof. by destruct m. Qed.

(** Whatever the random roll, [enhanceWithEmoji] appends a space and one
    emoji of the list of the mood; so the reply that is stored and sent,
    the trimmed text with its emoji, is never empty and has at most
    [MAX_WORDS + 1] space-separated pieces. *)
Theorem final_reply_shape e (aiReply : jsstring) m :
  let reply := enhanceWithEmoji e (limitResponseLength aiReply) m in
  ∃ emoji,
    emoji ∈ EMOJI_RESPONSES m ∧
    reply = limitResponseLength aiReply ++ JS.lit " " ++ emoji ∧
    reply ≠ [] ∧
    length (JS.split 32 reply) ≤ MAX_WORDS + 1.
Proof.
  cbv zeta. unfold enhanceWithEmoji.
  assert (Hlt : (random_emoji e `mod` length (EMOJI_RESPONSES m))
                < length (EMOJI_RESPONSES m)).
  { apply Nat.mod_upper_bound. rewrite EMOJI_RESPONSES_length. lia. }
  destruct (lookup_lt_is_Some_2 _ _ Hlt) as [emoji Hemoji].
  rewrite Hemoji. cbn [default from_option id].
  destruct (Forall_lookup_1 _ _ _ _ (emoji_no_space m) Hemoji) as [Hsp Hne].
  exists emoji. split; [by eapply list_elem_of_lookup_2|]. split; [done|].
  split.
  - intros E. apply app_eq_nil in E as [_ E]. discriminate E.
  - change (JS.lit " " ++ emoji) with (32%N :: emoji).
    rewrite split_app, length_app, (split_no_sep 32 emoji Hsp). cbn [length].
    pose proof (limitResponseLength_pieces aiReply). lia.
Qed.

(** ** Age bracket *)

Lemma isDigit_range c : isDigit c = true → (48 <= c <= 57)%N.
Proof. unfold isDigit. intros [?%N.leb_le ?%N.leb_le]%andb_true_iff. lia. Qed.

Lemma no_bracket_below_13 age :
  (age <= 99)%N → (∀ b, ¬ in_bracket b age) ↔ (age < 13)%N.
Proof.
  intros Hle. split.
  - intros Hno. destruct (N.lt_ge_cases age 13) as [|Hge]; [done|]. exfalso.
    assert (Hcase : (13 <= age <= 19 ∨ 20 <= age <= 29 ∨ 30 <= age <= 45 ∨
                     46 <= age <= 65 ∨ 66 <= age <= 100)%N) by lia.
    destruct Hcase as [H|[H|[H|[H|H]]]];
      [apply (Hno teen) | apply (Hno youngAdult) | apply (Hno adult)
      | apply (Hno middleAged) | apply (Hno senior)];
      apply in_bracket_cases; tauto.
  - intros Hlt b Hb. apply in_bracket_cases in Hb. lia.
Qed.

(** The guess is unknown exactly when the text has no standalone
    two-digit token or its first one is below 13: every two-digit age from
    13 on falls in a bracket, the ranges leaving no gap up to 99. *)
Theorem estimateAgeBracket_unknown (message : jsstring) :
  estimateAgeBracket message = unknown ↔
    (∀ i d1 d2, ¬ token_at None message i d1 d2) ∨
    (∃ i age, first_token message i age ∧ (age < 13)%N).
Proof.
  unfold estimateAgeBracket.
  pose proof (match_age_first message None) as Hm.
  destruct (match_age None message) as [[e1 e2]|].
  - destruct Hm as (k & Hk & Hmin).
    assert (Hage : (parseInt2 (e1, e2) <= 99)%N).
    { destruct Hk as (_ & _ & D1%isDigit_range & D2%isDigit_range & _).
      unfold parseInt2. cbn [fst snd]. lia. }
    rewrite bracket_loop_spec. split.
    + intros [Hin|[_ Hno]].
      * apply in_bracket_cases in Hin.
        destruct Hin as [[? _]|[[? _]|[[? _]|[[? _]|[? _]]]]]; discriminate.
      * right. exists k, (parseInt2 (e1, e2)). split.
        -- exists e1, e2. split; [exact Hk|]. split; [reflexivity | exact Hmin].
        -- by apply no_bracket_below_13.
    + intros [Hnone|(i & age & (d1 & d2 & Ht & -> & Hmin') & Hlt)].
      * exfalso. by eapply Hnone.
      * assert (k = i) as ->.
        { destruct (Nat.lt_trichotomy k i) as [Hlt'|[->|Hgt]]; [|done|].
          - exfalso. by eapply Hmin'.
          - exfalso. by eapply Hmin. }
        destruct (token_at_unique _ _ _ _ _ _ _ Hk Ht) as [-> ->].
        right. split; [done|]. by apply no_bracket_below_13.
  - split; [|done]. intros _. left. exact Hm.
Qed.

(** ** Profile write *)

(** A failed profile write raises and changes nothing.  A successful one
    touches the row of [phoneNumber] only: it sets gender and age bracket,
    keeps the stored name when the new one is missing, and for a row
    that was there before keeps its [activated] flag and refreshes
    [last_interaction]. *)
Theorem saveUserProfile_coalesce e (phoneNumber : jsstring) data w :
  let r := saveUserProfile e phoneNumber data w in
  (upsert_ok e = false → r = (Throw, w)) ∧
  (upsert_ok e = true →
     r.1 = Ok tt ∧
     (∀ q, q ≠ phoneNumber → users r.2 !! q = users w !! q) ∧
     ∃ row,
       users r.2 !! phoneNumber = Some row ∧
       gender_col row = Some (data_gender data) ∧
       age_bracket_col row = Some (data_ageBracket data) ∧
       name row =
         match data_name data with
         | Some n => Some n
         | None => users w !! phoneNumber ≫= name
         end ∧
       (∀ old, users w !! phoneNumber = Some old →
               activated row = activated old ∧ last_interaction row = now e) ∧
       (users w !! phoneNumber = None → activated row = true)).
Proof.
  cbv zeta. unfold saveUserProfile. turn_unfold. split; intros ->; [done|].
  world_simpl. split; [done|]. unfold upsert_user. split.
  - intros q Hq. destruct (users w !! phoneNumber); by rewrite lookup_insert_ne.
  - destruct (users w !! phoneNumber) as [old|] eqn:Hold;
      rewrite lookup_insert_eq; eexists; (split; [reflexivity|]);
      cbn; repeat split; try done;
      first [ by destruct (data_name data) | congruence ].
Qed.

(** *** Chunked delivery, in full *)

Lemma sendLongMessage_loop_slices e chatId (message : jsstring) fuel :
  ∀ i w, length message - i ≤ fuel →
  ∃ chunks,
    let r := sendLongMessage_loop fuel e chatId message i w in
    outbox r.2 = outbox w ++ map (pair chatId) chunks ∧
    (chunks ≠ [] → i < length message) ∧
    Forall (λ c : jsstring, 0 < length c ≤ MESSAGE_CHUNK_LENGTH) chunks ∧
    (∀ k c, chunks !! k = Some c → S k < length chunks →
            length c = MESSAGE_CHUNK_LENGTH) ∧
    concat chunks `prefix_of` drop i message ∧
    (r.1 = Ok tt → concat chunks = drop i message) ∧
    (r.1 = Throw →
       length (concat chunks) < length message - i ∧
       send_ok e (attempts w + length chunks) = false).
Proof.
  pose proof MESSAGE_CHUNK_LENGTH_pos as Hpos.
  induction fuel as [|fuel IH]; intros i w Hfuel; cbn [sendLongMessage_loop].
  - exists []. cbn. rewrite app_nil_r.
    split; [done|]. split; [done|]. split; [constructor|].
    split; [intros k c Hk; discriminate Hk|]. split; [apply prefix_nil|].
    split; [|discriminate]. intros _. symmetry. apply drop_ge. lia.
  - destruct (Nat.ltb_spec i (length message)) as [Hi|Hi].
    + unfold bind. rewrite substring_chunk.
      remember (take MESSAGE_CHUNK_LENGTH (drop i message)) as c eqn:Ec.
      assert (Hc : length c = MESSAGE_CHUNK_LENGTH `min` (length message - i)).
      { rewrite Ec. by rewrite length_take, length_drop. }
      assert (Hsplit : drop i message = c ++ drop (i + MESSAGE_CHUNK_LENGTH) message).
      { rewrite Ec. rewrite <- drop_drop. symmetry. apply take_drop. }
      clear Ec.
      destruct (send_ok e (attempts w)) eqn:Hs.
      * rewrite (sendMessage_ok _ _ _ _ Hs).
        destruct (IH (i + MESSAGE_CHUNK_LENGTH)
                    (set_outbox (λ o, o ++ [(chatId, c)]) (set_attempts S w)))
          as (chunks & Ho & Hne & Hall & Hfull & Hpre & Hok & Hthrow); [lia|].
        exists (c :: chunks). cbv zeta in *. rewrite Ho. world_simpl.
        split; [by rewrite <- app_assoc|]. split; [done|].
        split; [constructor; [lia | done]|].
        split.
        { intros [|k] c' Hk Hlen; cbn in Hk, Hlen.
          - injection Hk as <-. rewrite Hc.
            assert (i + MESSAGE_CHUNK_LENGTH < length message)
              by (apply Hne; intros E; rewrite E in Hlen; cbn in Hlen; lia).
            lia.
          - apply (Hfull k); [done | lia]. }
        split; [rewrite Hsplit; cbn [concat]; by apply prefix_app|].
        split.
        { intros Hr. cbn [concat]. rewrite Hsplit at 1. f_equal. by apply Hok. }
        intros Hr. destruct (Hthrow Hr) as [Hlt Hfail]. cbn [concat length].
        rewrite length_app. split; [lia|].
        by replace (attempts w + S (length chunks))
          with (S (attempts w) + length chunks) by lia.
      * rewrite (sendMessage_fail _ _ _ _ Hs). exists []. cbn.
        rewrite app_nil_r, Nat.add_0_r.
        split; [done|]. split; [done|]. split; [constructor|].
        split; [intros k c' Hk; discriminate Hk|]. split; [apply prefix_nil|].
        split; [discriminate|]. intros _. split; [lia | done].
    + exists []. cbn. rewrite app_nil_r.
      split; [done|]. split; [done|]. split; [constructor|].
      split; [intros k c Hk; discriminate Hk|]. split; [apply prefix_nil|].
      split; [|discriminate]. intros _. symmetry. apply drop_ge. lia.
Qed.

(** [sendLongMessage] delivers all of the text or a strict prefix of it:
    it returns normally exactly when the slices delivered make up the
    whole text, and raises at the first send the transport refuses,
    leaving the rest undelivered.  No slice is empty, and every slice but
    the last delivered has exactly [MESSAGE_CHUNK_LENGTH] units. *)
Theorem sendLongMessage_all_or_prefix e chatId (message : jsstring) w :
  ∃ chunks,
    let r := sendLongMessage e chatId message w in
    outbox r.2 = outbox w ++ map (pair chatId) chunks ∧
    Forall (λ c : jsstring, 0 < length c ≤ MESSAGE_CHUNK_LENGTH) chunks ∧
    (∀ k c, chunks !! k = Some c → S k < length chunks →
            length c = MESSAGE_CHUNK_LENGTH) ∧
    concat chunks `prefix_of` message ∧
    (r.1 = Ok tt ↔ concat chunks = message) ∧
    (r.1 = Throw → send_ok e (attempts w + length chunks) = false).
Proof.
  destruct (sendLongMessage_loop_slices e chatId message (length message) 0 w)
    as (chunks & Ho & _ & Hall & Hfull & Hpre & Hok & Hthrow); [lia|].
  exists chunks. cbv zeta in *. unfold sendLongMessage. rewrite drop_0 in *.
  split; [done|]. split; [done|]. split; [done|]. split; [done|].
  split; [|by intros Hr; apply Hthrow].
  split; [done|]. intros Hc.
  destruct (sendLongMessage_loop _ _ _ _ _ _).1 as [[]|] eqn:Hr; [done|].
  destruct (Hthrow eq_refl) as [Hlt _]. rewrite Hc in Hlt. lia.
Qed.

(** A text of at most [MESSAGE_CHUNK_LENGTH] units goes out as one
    message, unchanged; the empty text sends nothing. *)
Theorem sendLongMessage_short e chatId (message : jsstring) w :
  length message ≤ MESSAGE_CHUNK_LENGTH →
  send_ok e (attempts w) = true →
  sendLongMessage e chatId message w =
    if decide (message = [])
    then (Ok tt, w)
    else (Ok tt, set_outbox (λ o, o ++ [(chatId, message)]) (set_attempts S w)).
Proof.
  intros Hlen Hsend. unfold sendLongMessage.
  destruct message as [|c message]; [done|].
  rewrite decide_False by done.
  cbn [length sendLongMessage_loop]. rewrite (proj2 (Nat.ltb_lt _ _)) by (cbn; lia).
  unfold bind. rewrite substring_chunk, drop_0.
  rewrite take_ge by done. rewrite (sendMessage_ok _ _ _ _ Hsend).
  destruct (length message) eqn:El; cbn [sendLongMessage_loop]; [done|].
  rewrite (proj2 (Nat.ltb_ge _ _)); [done|]. cbn [length] in *. lia.
Qed.

(** ** Footprint of a turn *)

#[local] Instance turn_footprint_preorder p : PreOrder (turn_footprint p).
Proof.
  split.
  - intros w. split; [done|].
    repeat split; exists []; by rewrite app_nil_r.
  - intros w1 w2 w3 (Hq1 & (c1 & Ec1 & Fc1) & (s1 & Es1 & Fs1) & (o1 & Eo1 & Fo1) & (r1 & Er1))
      (Hq2 & (c2 & Ec2 & Fc2) & (s2 & Es2 & Fs2) & (o2 & Eo2 & Fo2) & (r2 & Er2)).
    split; [|split; [|split; [|split]]].
    + intros q Hq. destruct (Hq1 q Hq) as (A1 & B1 & C1).
      destruct (Hq2 q Hq) as (A2 & B2 & C2). repeat split; congruence.
    + exists (c1 ++ c2). rewrite Ec2, Ec1, app_assoc. split; [done|].
      by apply Forall_app.
    + exists (s1 ++ s2). rewrite Es2, Es1, app_assoc. split; [done|].
      by apply Forall_app.
    + exists (o1 ++ o2). rewrite Eo2, Eo1, app_assoc. split; [done|].
      by apply Forall_app.
    + exists (r1 ++ r2). by rewrite Er2, Er1, app_assoc.
Qed.

Lemma upsert_user_other e p data us q :
  q ≠ p → upsert_user e p data us !! q = us !! q.
Proof.
  intros Hq. unfold upsert_user. destruct (us !! p); by rewrite lookup_insert_ne.
Qed.

(** One addition to a log, or none. *)
Ltac footprint_log :=
  first [ by (exists []; rewrite app_nil_r)
        | by (eexists [_]; split; [reflexivity | repeat constructor])
        | by eexists [_] ].

Ltac footprint_base :=
  unfold turn_footprint; world_simpl;
  split;
  [ intros q Hq; rewrite ?lookup_insert_ne, ?upsert_user_other by done; done
  | split; [|split; [|split]]; footprint_log ].

Section Footprint.

Variable p : jsstring.

Lemma footprint_sendMessage e text :
  preserves (turn_footprint p) (sendMessage e p text).
Proof.
  intros w. unfold sendMessage.
  destruct (send_ok e (attempts w)); footprint_base.
Qed.

Lemma footprint_sendLongMessage e message :
  preserves (turn_footprint p) (sendLongMessage e p message).
Proof.
  unfold sendLongMessage. generalize 0 as i.
  induction (length message) as [|fuel IH] at 1; intros i;
    cbn [sendLongMessage_loop].
  - apply preserves_ret; apply _.
  - destruct (i <? length message); [|apply preserves_ret; apply _].
    frame preserves_bind; [apply footprint_sendMessage | intros _; apply IH].
Qed.

Lemma footprint_storeMessage e text isBot m :
  preserves (turn_footprint p) (storeMessage e p text isBot m).
Proof.
  intros w. rewrite storeMessage_run.
  destruct (insert_ok e isBot); footprint_base.
Qed.

Lemma footprint_saveSuggestion e m s :
  preserves (turn_footprint p) (saveSuggestion e p m s).
Proof.
  intros w. unfold saveSuggestion. turn_unfold.
  destruct (suggestion_ok e); footprint_base.
Qed.

Lemma footprint_saveUserProfile e data :
  preserves (turn_footprint p) (saveUserProfile e p data).
Proof.
  intros w. unfold saveUserProfile. turn_unfold.
  destruct (upsert_ok e); footprint_base.
Qed.

Lemma footprint_set_state s : preserves (turn_footprint p) (set_state p s).
Proof. intros w. unfold set_state, modify. footprint_base. Qed.

Lemma footprint_getAIResponse JSON_stringify e userInput history ctx :
  preserves (turn_footprint p)
    (getAIResponse JSON_stringify e userInput history ctx).
Proof.
  frame preserves_getAIResponse. intros x w. footprint_base.
Qed.

Lemma footprint_on_active sentiment_score JSON_stringify e userMessage :
  preserves (turn_footprint p)
    (on_active sentiment_score JSON_stringify e p userMessage).
Proof.
  unfold on_active. cbv zeta.
  frame preserves_bind; [apply footprint_storeMessage | intros _].
  frame preserves_bind; [by frame preserves_getChatHistory | intros history].
  frame preserves_bind; [by frame preserves_db_query | intros _].
  frame preserves_bind; [by frame preserves_gets | intros u].
  frame preserves_bind; [apply footprint_getAIResponse | intros aiReply].
  frame preserves_bind; [apply footprint_storeMessage | intros _].
  frame preserves_bind; [apply footprint_sendLongMessage | intros _].
  destruct (_ && _); [|by frame preserves_ret].
  frame preserves_bind; [apply footprint_getAIResponse | intros s].
  frame preserves_bind; [apply footprint_saveSuggestion | intros _].
  apply footprint_sendMessage.
Qed.

End Footprint.

Lemma footprint_handler toLowerCase sentiment_score JSON_stringify e msg :
  preserves (turn_footprint (from msg))
    (handler toLowerCase sentiment_score JSON_stringify e msg).
Proof.
  unfold handler.
  frame preserves_try_catch; [|apply footprint_sendMessage].
  unfold handler_try. destruct (_ || _); [by frame preserves_ret|]. cbv zeta.
  frame preserves_bind; [by frame preserves_gets | intros state].
  destruct (_ && _).
  { frame preserves_bind; [apply footprint_set_state | intros _].
    apply footprint_sendMessage. }
  unfold dispatch.
  frame preserves_bind; [by frame preserves_gets | intros state'].
  repeat case_bool_decide.
  - unfold on_awaiting_name. cbv zeta.
    frame preserves_bind.
    { intros w. unfold modify. footprint_base. }
    intros _. case_bool_decide.
    + frame preserves_bind; [apply footprint_saveUserProfile | intros _].
      frame preserves_bind; [apply footprint_sendMessage | intros _].
      apply footprint_set_state.
    + frame preserves_bind; [apply footprint_set_state | intros _].
      apply footprint_sendMessage.
  - unfold on_awaiting_gender. cbv zeta.
    frame preserves_bind; [by frame preserves_gets | intros cached].
    frame preserves_bind; [apply footprint_saveUserProfile | intros _].
    frame preserves_bind; [apply footprint_set_state | intros _].
    apply footprint_sendMessage.
  - apply footprint_on_active.
  - by frame preserves_ret.
Qed.

Section Turns.

Variable toLowerCase : jsstring -> jsstring.
Variable sentiment_score : jsstring -> Z.
Variable JSON_stringify : context -> jsstring.

Local Abbreviation run := (handler toLowerCase sentiment_score JSON_stringify).
Local Abbreviation run_try :=
  (handler_try toLowerCase sentiment_score JSON_stringify).

(** A handled message never touches another user: the session state,
    the cached name and the profile row of everyone but the sender are
    what they were. *)
Theorem handler_leaves_other_users e msg w q :
  q ≠ from msg →
  let r := handler toLowerCase sentiment_score JSON_stringify e msg w in
  userStates r.2 !! q = userStates w !! q ∧
  userDataCache r.2 !! q = userDataCache w !! q ∧
  users r.2 !! q = users w !! q.
Proof.
  cbv zeta.
  intros Hq.
  destruct (footprint_handler toLowerCase sentiment_score JSON_stringify e msg w)
    as [Hothers _].
  by apply Hothers.
Qed.

(** The chat history and the suggestions table are append-only under the
    handler: a handled message keeps every stored row in place and adds
    rows of the sender only. *)
Theorem handler_appends_sender_rows e msg w :
  let r := handler toLowerCase sentiment_score JSON_stringify e msg w in
  (∃ rows, chat_history r.2 = chat_history w ++ rows ∧
           Forall (λ row, phone_number row = from msg) rows) ∧
  (∃ rows, suggestions r.2 = suggestions w ++ rows ∧
           Forall (λ row, s_phone_number row = from msg) rows).
Proof.
  cbv zeta.
  destruct (footprint_handler toLowerCase sentiment_score JSON_stringify e msg w)
    as (_ & Hchat & Hsug & _).
  by split.
Qed.

(** Every message a turn delivers goes to the sender of the inbound
    message, the apology included. *)
Theorem handler_replies_to_sender_only e msg w :
  let r := handler toLowerCase sentiment_score JSON_stringify e msg w in
  ∃ msgs, outbox r.2 = outbox w ++ msgs ∧ Forall (λ m, m.1 = from msg) msgs.
Proof.
  cbv zeta.
  destruct (footprint_handler toLowerCase sentiment_score JSON_stringify e msg w)
    as (_ & _ & _ & Hout & _).
  exact Hout.
Qed.

(** *** Filter *)

(** Status events and messages from a group chat are dropped whole:
    nothing is read, written or sent, whatever the text and the session
    state of the sender. *)
Theorem handler_ignores_status_and_groups e msg w :
  isStatus msg = true ∨ JS.includes (from msg) (JS.lit "@g.us") = true →
  run e msg w = (Ok tt, w).
Proof.
  intros Hf. unfold handler, try_catch.
  rewrite handler_try_filtered; [done|].
  destruct Hf as [->| ->]; [done | apply orb_true_r].
Qed.

(** *** Session state machine *)

Lemma state_move_refl s : state_move s s.
Proof. destruct s as [[]|]; cbn; eauto. Qed.

(** The session state of a user only moves forward: a handled message
    takes it from no session to awaiting_name at most, never back from
    awaiting_gender to awaiting_name, and never out of active; no session
    is ever deleted. *)
Theorem handler_state_moves_forward e msg w q :
  state_move (userStates w !! q) (userStates (run e msg w).2 !! q) ∧
  state_rank (userStates w !! q) ≤ state_rank (userStates (run e msg w).2 !! q).
Proof.
  assert (Hmove : state_move (userStates w !! q)
                    (userStates (run e msg w).2 !! q)).
  { destruct (handler_session toLowerCase sentiment_score JSON_stringify e msg w)
      as [[A B]|A B C|n s A B C|A B C]; rewrite ?A, ?B, ?C.
    - apply state_move_refl.
    - destruct (decide (from msg = q)) as [<-|Hne].
      + rewrite lookup_insert_eq, A. cbn. by right.
      + rewrite lookup_insert_ne by done. apply state_move_refl.
    - destruct (decide (from msg = q)) as [<-|Hne].
      + rewrite lookup_insert_eq, A. cbn. eauto.
      + rewrite lookup_insert_ne by done. apply state_move_refl.
    - destruct (decide (from msg = q)) as [<-|Hne].
      + rewrite lookup_insert_eq, A. cbn. by right.
      + rewrite lookup_insert_ne by done. apply state_move_refl. }
  split; [exact Hmove|].
  destruct (userStates w !! q) as [[]|]; cbn in Hmove |- *;
    [destruct Hmove as [s ->]; destruct s; cbn; lia
    |destruct Hmove as [-> | ->]; cbn; lia
    |rewrite Hmove; cbn; lia
    |lia].
Qed.

(** *** When a turn raises *)

Lemma returns_ret {A} (a : A) : returns (ret a).
Proof. intros w. by exists a. Qed.

Lemma returns_gets {A} (f : world → A) : returns (gets f).
Proof. intros w. by eexists. Qed.

Lemma returns_modify f : returns (modify f).
Proof. intros w. by eexists. Qed.

Lemma returns_bind {A B} (c : M A) (k : A → M B) :
  returns c → (∀ a, returns (k a)) → returns (bind c k).
Proof.
  intros Hc Hk w. unfold bind. destruct (Hc w) as [a Ha].
  destruct (c w) as [[a'|] w1]; [|discriminate Ha]. apply Hk.
Qed.

Lemma returns_caught {A} (c h : M A) : returns h → returns (try_catch c h).
Proof.
  intros Hh w. unfold try_catch.
  destruct (c w) as [[a|] w1]; [by exists a | apply Hh].
Qed.

Lemma returns_storeMessage e p text isBot m :
  returns (storeMessage e p text isBot m).
Proof. apply returns_caught, returns_ret. Qed.

Lemma returns_saveSuggestion e p m s : returns (saveSuggestion e p m s).
Proof. apply returns_caught, returns_ret. Qed.

Lemma returns_getChatHistory e p : returns (getChatHistory e p).
Proof. apply returns_caught, returns_ret. Qed.

Lemma returns_getAIResponse e userInput history ctx :
  returns (getAIResponse JSON_stringify e userInput history ctx).
Proof. apply returns_caught, returns_ret. Qed.

Section TransportUp.

Variable e : env.
Hypothesis sends_ok : ∀ n, send_ok e n = true.

Lemma returns_sendMessage chatId text : returns (sendMessage e chatId text).
Proof. intros w. unfold sendMessage. rewrite sends_ok. by eexists. Qed.

Lemma returns_sendLongMessage chatId message :
  returns (sendLongMessage e chatId message).
Proof.
  unfold sendLongMessage. generalize 0 as i.
  induction (length message) as [|fuel IH] at 1; intros i;
    cbn [sendLongMessage_loop].
  - apply returns_ret.
  - destruct (i <? length message); [|apply returns_ret].
    apply returns_bind; [apply returns_sendMessage | intros _; apply IH].
Qed.

Hypothesis upsert_up : upsert_ok e = true.
Hypothesis select_up : select_user_ok e = true.

Lemma returns_saveUserProfile p data : returns (saveUserProfile e p data).
Proof.
  intros w. unfold saveUserProfile. turn_unfold. rewrite upsert_up. by eexists.
Qed.

Lemma returns_handler_try msg : returns (run_try e msg).
Proof.
  unfold handler_try. destruct (_ || _); [apply returns_ret|]. cbv zeta.
  apply returns_bind; [apply returns_gets | intros state].
  destruct (_ && _).
  { apply returns_bind; [apply returns_modify | intros _].
    apply returns_sendMessage. }
  unfold dispatch.
  apply returns_bind; [apply returns_gets | intros state'].
  repeat case_bool_decide.
  - unfold on_awaiting_name. cbv zeta.
    apply returns_bind; [apply returns_modify | intros _].
    case_bool_decide.
    + apply returns_bind; [apply returns_saveUserProfile | intros _].
      apply returns_bind; [apply returns_sendMessage | intros _].
      apply returns_modify.
    + apply returns_bind; [apply returns_modify | intros _].
      apply returns_sendMessage.
  - unfold on_awaiting_gender. cbv zeta.
    apply returns_bind; [apply returns_gets | intros cached].
    apply returns_bind; [apply returns_saveUserProfile | intros _].
    apply returns_bind; [apply returns_modify | intros _].
    apply returns_sendMessage.
  - unfold on_active. cbv zeta.
    apply returns_bind; [apply returns_storeMessage | intros _].
    apply returns_bind; [apply returns_getChatHistory | intros history].
    apply returns_bind.
    { intros w. unfold db_query. rewrite select_up. by eexists. }
    intros _. apply returns_bind; [apply returns_gets | intros u].
    apply returns_bind; [apply returns_getAIResponse | intros aiReply].
    apply returns_bind; [apply returns_storeMessage | intros _].
    apply returns_bind; [apply returns_sendLongMessage | intros _].
    destruct (_ && _); [|apply returns_ret].
    apply returns_bind; [apply returns_getAIResponse | intros s].
    apply returns_bind; [apply returns_saveSuggestion | intros _].
    apply returns_sendMessage.
  - apply returns_ret.
Qed.

End TransportUp.

(** With the transport accepting every send and the profile write and
    profile read succeeding, a turn never reaches the [catch] of the
    handler: no apology is sent, even when the chat-history insert, the
    history read, the suggestion insert or the backend call fail. *)
Theorem handler_no_apology e msg w :
  (∀ n, send_ok e n = true) →
  upsert_ok e = true →
  select_user_ok e = true →
  let r := handler toLowerCase sentiment_score JSON_stringify e msg w in
  r = handler_try toLowerCase sentiment_score JSON_stringify e msg w ∧
  r.1 = Ok tt.
Proof.
  cbv zeta.
  intros Hsend Hup Hsel.
  destruct (returns_handler_try e Hsend Hup Hsel msg w) as [[] Hok].
  unfold handler, try_catch.
  destruct (run_try e msg w) as [[[]|] w1]; [done | discriminate Hok].
Qed.

(** *** Onboarding turns *)

Lemma trimStart_idem s : JS.trimStart (JS.trimStart s) = JS.trimStart s.
Proof.
  induction s as [|c s IH]; [done|]. cbn [JS.trimStart].
  destruct (JS.isWhiteSpace c) eqn:Hc; [done|].
  cbn [JS.trimStart]. by rewrite Hc.
Qed.

Lemma trimStart_snoc s c :
  JS.isWhiteSpace c = false →
  JS.trimStart (s ++ [c]) = JS.trimStart s ++ [c].
Proof.
  intros Hc. induction s as [|x s IH]; cbn [JS.trimStart app].
  - by rewrite Hc.
  - by destruct (JS.isWhiteSpace x).
Qed.

Lemma trimStart_head s :
  JS.trimStart s = [] ∨
  ∃ c t, JS.trimStart s = c :: t ∧ JS.isWhiteSpace c = false.
Proof.
  induction s as [|c s IH]; [by left|]. cbn [JS.trimStart].
  destruct (JS.isWhiteSpace c) eqn:Hc; [done|]. right. eauto.
Qed.

(** [trim] is idempotent: the [userName] of the awaiting_name branch,
    trimmed a second time, is the trimmed body. *)
Lemma trim_idem s : JS.trim (JS.trim s) = JS.trim s.
Proof.
  unfold JS.trim.
  assert (Hstart : JS.trimStart (JS.trimEnd (JS.trimStart s))
                   = JS.trimEnd (JS.trimStart s)).
  { destruct (trimStart_head s) as [->|(c & t & -> & Hc)]; [done|].
    unfold JS.trimEnd. cbn [rev]. rewrite (trimStart_snoc _ _ Hc).
    rewrite rev_unit. cbn [JS.trimStart]. by rewrite Hc. }
  rewrite Hstart. unfold JS.trimEnd.
  by rewrite rev_involutive, trimStart_idem.
Qed.

(** In awaiting_name a name of the reference lists completes onboarding
    in that turn: the profile row gets the trimmed text as name, the
    detected gender and the age bracket read from the text, the
    acknowledgment is the one message sent, and the state becomes active
    (the name stays cached). *)
Theorem listed_name_completes_onboarding e msg w :
  isStatus msg = false →
  JS.includes (from msg) (JS.lit "@g.us") = false →
  userStates w !! from msg = Some awaiting_name →
  detectGenderFromName toLowerCase (JS.trim (body msg)) ≠ unknown_gender →
  upsert_ok e = true →
  send_ok e (attempts w) = true →
  let p := from msg in
  let userName := JS.trim (body msg) in
  let r := run e msg w in
  r.1 = Ok tt ∧
  userStates r.2 = <[p := active]> (userStates w) ∧
  userDataCache r.2 = <[p := {| pending_name := userName |}]> (userDataCache w) ∧
  (∃ row, users r.2 !! p = Some row ∧
          name row = Some userName ∧
          gender_col row = Some (detectGenderFromName toLowerCase userName) ∧
          age_bracket_col row = Some (estimateAgeBracket userName)) ∧
  outbox r.2 = outbox w ++ [(p, nice_to_meet_you userName)] ∧
  chat_history r.2 = chat_history w.
Proof.
  intros Hstatus Hgroup Hst Hgender Hup Hsend. cbv zeta.
  unfold handler, try_catch.
  rewrite (handler_try_session_state _ _ _ _ _ _ _ Hstatus Hgroup Hst).
  unfold on_awaiting_name, saveUserProfile. turn_unfold.
  rewrite trim_idem. rewrite (bool_decide_eq_true_2 _ Hgender).
  rewrite Hup. world_simpl. rewrite Hsend. world_simpl.
  repeat (split; [reflexivity|]). split; [|done].
  unfold upsert_user.
  destruct (users w !! from msg); rewrite lookup_insert_eq; eexists;
    (split; [reflexivity|]); by cbn.
Qed.

(** In awaiting_name any other name is put aside: it is cached, the state
    becomes awaiting_gender, the question about the name is the one
    message sent, and nothing is written to the store.  A text with the
    trigger phrase is a name like any other here. *)
Theorem unlisted_name_asks_gender e msg w :
  isStatus msg = false →
  JS.includes (from msg) (JS.lit "@g.us") = false →
  userStates w !! from msg = Some awaiting_name →
  detectGenderFromName toLowerCase (JS.trim (body msg)) = unknown_gender →
  send_ok e (attempts w) = true →
  let p := from msg in
  let userName := JS.trim (body msg) in
  let r := run e msg w in
  r.1 = Ok tt ∧
  userStates r.2 = <[p := awaiting_gender]> (userStates w) ∧
  userDataCache r.2 = <[p := {| pending_name := userName |}]> (userDataCache w) ∧
  outbox r.2 = outbox w ++ [(p, gender_question userName)] ∧
  users r.2 = users w ∧
  chat_history r.2 = chat_history w.
Proof.
  intros Hstatus Hgroup Hst Hgender Hsend. cbv zeta.
  unfold handler, try_catch.
  rewrite (handler_try_session_state _ _ _ _ _ _ _ Hstatus Hgroup Hst).
  unfold on_awaiting_name. turn_unfold.
  rewrite trim_idem, Hgender.
  rewrite (bool_decide_eq_false_2 (unknown_gender ≠ unknown_gender)) by auto.
  world_simpl. rewrite Hsend. world_simpl. by repeat split.
Qed.

(** In a reachable world a turn in awaiting_gender finds the name cached
    by the earlier turn; with the profile write and the send succeeding,
    the row gets that name, the resolved gender and the age bracket read
    from the lower-cased text, the state becomes active and the prompt
    is the one message sent. *)
Theorem gender_turn_completes_onboarding e msg w :
  reachable toLowerCase sentiment_score JSON_stringify w →
  isStatus msg = false →
  JS.includes (from msg) (JS.lit "@g.us") = false →
  userStates w !! from msg = Some awaiting_gender →
  upsert_ok e = true →
  send_ok e (attempts w) = true →
  let p := from msg in
  let lowerMessage := toLowerCase (JS.trim (body msg)) in
  let r := run e msg w in
  r.1 = Ok tt ∧
  userStates r.2 = <[p := active]> (userStates w) ∧
  userDataCache r.2 = userDataCache w ∧
  (∃ cached row,
     userDataCache w !! p = Some cached ∧
     users r.2 !! p = Some row ∧
     name row = Some (pending_name cached) ∧
     gender_col row = Some (resolveGender lowerMessage) ∧
     age_bracket_col row = Some (estimateAgeBracket lowerMessage)) ∧
  outbox r.2 = outbox w ++ [(p, steady_prompt)] ∧
  chat_history r.2 = chat_history w.
Proof.
  intros Hreach Hstatus Hgroup Hst Hup Hsend. cbv zeta.
  destruct (reachable_session_inv _ _ _ _ Hreach (from msg)) as [Hcache _].
  destruct Hcache as [cached Hcached]; [by left|].
  unfold handler, try_catch.
  rewrite (handler_try_session_state _ _ _ _ _ _ _ Hstatus Hgroup Hst).
  unfold on_awaiting_gender, saveUserProfile. turn_unfold.
  rewrite Hup. world_simpl. rewrite Hsend. world_simpl.
  repeat (split; [reflexivity|]). split; [|done].
  exists cached. rewrite Hcached. unfold upsert_user.
  destruct (users w !! from msg); rewrite lookup_insert_eq; eexists;
    (split; [reflexivity|]); (split; [reflexivity|]); by cbn.
Qed.

(** The two onboarding branches order the state change and the send
    differently.  When the send of the acknowledgment fails after a
    listed name, the profile row is written but the state is still
    awaiting_name; when the send of the prompt fails in awaiting_gender,
    the row is written and the state is already active.  In both cases
    the apology is attempted. *)
Theorem onboarding_send_failure e msg w :
  isStatus msg = false →
  JS.includes (from msg) (JS.lit "@g.us") = false →
  upsert_ok e = true →
  send_ok e (attempts w) = false →
  let p := from msg in
  let r := run e msg w in
  (userStates w !! p = Some awaiting_name →
   detectGenderFromName toLowerCase (JS.trim (body msg)) ≠ unknown_gender →
     userStates r.2 = userStates w ∧ is_Some (users r.2 !! p)) ∧
  (userStates w !! p = Some awaiting_gender →
     userStates r.2 = <[p := active]> (userStates w) ∧
     is_Some (users r.2 !! p)) ∧
  (userStates w !! p = Some awaiting_name ∨
   userStates w !! p = Some awaiting_gender →
     attempts r.2 = S (S (attempts w)) ∧
     outbox r.2 =
       outbox w ++ (if send_ok e (S (attempts w)) then [(p, apology)] else [])).
Proof.
  intros Hstatus Hgroup Hup Hsend. cbv zeta.
  assert (Hrow : ∀ data us, is_Some (upsert_user e (from msg) data us !! from msg)).
  { intros data us. unfold upsert_user.
    destruct (us !! from msg); rewrite lookup_insert_eq; eauto. }
  split; [|split].
  - intros Hst Hgender. unfold handler, try_catch.
    rewrite (handler_try_session_state _ _ _ _ _ _ _ Hstatus Hgroup Hst).
    unfold on_awaiting_name, saveUserProfile. turn_unfold.
    rewrite trim_idem. rewrite (bool_decide_eq_true_2 _ Hgender).
    rewrite Hup. world_simpl. rewrite Hsend. world_simpl.
    destruct (send_ok e (S (attempts w))); world_simpl; split; done.
  - intros Hst. unfold handler, try_catch.
    rewrite (handler_try_session_state _ _ _ _ _ _ _ Hstatus Hgroup Hst).
    unfold on_awaiting_gender, saveUserProfile. turn_unfold.
    rewrite Hup. world_simpl. rewrite Hsend. world_simpl.
    destruct (send_ok e (S (attempts w))); world_simpl; split; done.
  - intros [Hst|Hst]; unfold handler, try_catch;
      rewrite (handler_try_session_state _ _ _ _ _ _ _ Hstatus Hgroup Hst);
      unfold on_awaiting_name, on_awaiting_gender, saveUserProfile; turn_unfold;
      [case_bool_decide|]; rewrite ?Hup; world_simpl; rewrite Hsend; world_simpl;
      destruct (send_ok e (S (attempts w))); world_simpl;
      by rewrite ?app_nil_r.
Qed.

(** *** Active turns *)


Lemma bind_throw {A B} (c : M A) (k : A → M B) w w1 :
  c w = (Throw, w1) → bind c k w = (Throw, w1).
Proof. unfold bind. by intros ->. Qed.


Lemma backend_reply_from_option e n request :
  backend_reply e (from_option JS.trim ai_fallback (backend e n request)).
Proof.
  unfold backend_reply. destruct (backend e n request) eqn:E; cbn; eauto 6.
Qed.


(** An active turn whose profile read fails: the inbound text has been
    stored (when its insert succeeded) but is never answered; no request
    reaches the backend, and the sender gets the apology. *)
Theorem active_turn_profile_read_fails e msg w :
  isStatus msg = false →
  JS.includes (from msg) (JS.lit "@g.us") = false →
  userStates w !! from msg = Some active →
  select_user_ok e = false →
  send_ok e (attempts w) = true →
  let p := from msg in
  let userMessage := JS.trim (body msg) in
  let r := run e msg w in
  r.1 = Ok tt ∧
  outbox r.2 = outbox w ++ [(p, apology)] ∧
  requests r.2 = requests w ∧
  userStates r.2 = userStates w ∧
  chat_history r.2 =
    chat_history w ++
    (if insert_ok e false
     then [{| phone_number := p; message := userMessage; is_bot := false;
              mood_col := Some (detectMood sentiment_score userMessage) |}]
     else []).
Proof.
  intros Hstatus Hgroup Hst Hsel Hsend. cbv zeta.
  unfold handler, try_catch.
  rewrite (handler_try_session_state _ _ _ _ _ _ _ Hstatus Hgroup Hst).
  unfold on_active. cbv zeta.
  erewrite bind_run by apply storeMessage_run.
  erewrite bind_run by apply getChatHistory_run.
  erewrite bind_throw by (unfold db_query; by rewrite Hsel).
  unfold sendMessage.
  destruct (insert_ok e false); world_simpl; rewrite Hsend; world_simpl;
    rewrite ?app_nil_r; by repeat split.
Qed.

(** *** Stored profiles *)

Lemma resolveGender_known t : resolveGender t ≠ unknown_gender.
Proof.
  rewrite resolveGender_priority.
  by destruct (JS.includes t (JS.lit "skip")), (JS.includes t (JS.lit "girl")),
    (JS.includes t (JS.lit "boy")).
Qed.

#[local] Instance same_profiles_preorder : PreOrder same_profiles.
Proof.
  split.
  - by intros w.
  - intros w1 w2 w3 [A B] [C D]. split; congruence.
Qed.

Lemma same_profiles_on_active e p userMessage :
  preserves same_profiles
    (on_active sentiment_score JSON_stringify e p userMessage).
Proof.
  apply (preserves_on_active same_profiles) with (admissible := λ _, True);
    frame_side.
Qed.

Lemma same_profiles_sendMessage e chatId text :
  preserves same_profiles (sendMessage e chatId text).
Proof. apply preserves_sendMessage; frame_side. Qed.

Lemma profile_step_then e p w w1 w2 :
  profile_step e p w w1 → same_profiles w1 w2 → profile_step e p w w2.
Proof.
  intros [[A B]|(data & A & B)] [C D]; [left | right].
  - rewrite C, D. by split.
  - exists data. by rewrite C.
Qed.

Lemma handler_try_profile_step e msg w :
  session_inv w → profile_step e (from msg) w (run_try e msg w).2.
Proof.
  intros Hinv. unfold handler_try.
  destruct (isStatus msg || _); [by left|]. cbv zeta.
  unfold bind at 1. unfold gets at 1.
  destruct (JS.includes _ _ && bool_decide (userStates w !! from msg = None))
    eqn:Htrig.
  - apply andb_true_iff in Htrig as [_ Hnone%bool_decide_eq_true].
    turn_unfold. case_outcomes; left; (split; [done|]); world_simpl;
      rewrite lookup_insert_eq; discriminate.
  - unfold dispatch. unfold bind at 1. unfold gets at 1.
    destruct (userStates w !! from msg) as [[| |]|] eqn:Hst;
      repeat (case_bool_decide; try congruence).
    + unfold on_awaiting_name, saveUserProfile. turn_unfold.
      case_bool_decide; case_outcomes;
        first [ right; eexists; split; [reflexivity|]; by split
              | left; split; [done|]; world_simpl;
                rewrite ?lookup_insert_eq, ?Hst; discriminate ].
    + destruct (Hinv (from msg)) as [[cached Hcached] _]; [by left|].
      unfold on_awaiting_gender, saveUserProfile. turn_unfold.
      case_outcomes;
        first [ right; eexists; split; [reflexivity|]; cbn;
                rewrite Hcached; split; [by eexists | apply resolveGender_known]
              | left; split; [done|]; world_simpl; rewrite ?Hst;
                discriminate ].
    + left. destruct (same_profiles_on_active e (from msg) (JS.trim (body msg)) w)
        as [-> ->]. by split.
    + left. by split.
Qed.

Lemma handler_profile_step e msg w :
  session_inv w → profile_step e (from msg) w (run e msg w).2.
Proof.
  intros Hinv. unfold handler, try_catch.
  pose proof (handler_try_profile_step e msg w Hinv) as Hstep.
  destruct (run_try e msg w) as [[[]|] w1]; [done|].
  eapply profile_step_then; [exact Hstep|]. apply same_profiles_sendMessage.
Qed.

Lemma upsert_user_complete e p data us :
  is_Some (data_name data) → data_gender data ≠ unknown_gender →
  (∀ q row, us !! q = Some row → profile_complete row) →
  ∀ q row, upsert_user e p data us !! q = Some row → profile_complete row.
Proof.
  intros [n Hn] Hg Hall q row. unfold upsert_user.
  destruct (us !! p) as [old|] eqn:Hold;
    (destruct (decide (p = q)) as [<-|Hne];
     [rewrite lookup_insert_eq | rewrite lookup_insert_ne by done; apply Hall]).
  - intros [= <-]. destruct (Hall _ _ Hold) as (_ & _ & _ & Hact).
    unfold profile_complete. cbn. rewrite Hn. eauto 10.
  - intros [= <-]. unfold profile_complete. cbn. rewrite Hn. eauto 10.
Qed.

Lemma reachable_profiles_inv w :
  reachable toLowerCase sentiment_score JSON_stringify w → profiles_inv w.
Proof.
  induction 1 as [|w Hr IH|e msg w Hr IH|j w Hr IH].
  - split; intros p; cbn; rewrite lookup_empty; discriminate.
  - destruct IH as [Hrows Hactive]. split; [exact Hrows|].
    intros p. cbn. rewrite lookup_empty. discriminate.
  - destruct IH as [Hrows Hactive].
    pose proof (handler_profile_step e msg w
                  (reachable_session_inv _ _ _ _ Hr)) as Hstep.
    destruct (footprint_handler toLowerCase sentiment_score JSON_stringify e msg w)
      as [Hothers _].
    assert (Hact : ∀ p, userStates (run e msg w).2 !! p = Some active →
                        p ≠ from msg → is_Some (users w !! p)).
    { intros p Hp Hne. destruct (Hothers p Hne) as (Es & _ & _).
      apply Hactive. by rewrite <- Es. }
    unfold profiles_inv.
    destruct Hstep as [[Eu Hkeep]|(data & Eu & Hname & Hgender)]; rewrite Eu.
    + split; [exact Hrows|]. intros p Hp.
      destruct (decide (p = from msg)) as [->|Hne]; [|by apply Hact].
      by apply Hactive, Hkeep.
    + split; [by apply upsert_user_complete|]. intros p Hp.
      destruct (decide (p = from msg)) as [->|Hne].
      * unfold upsert_user.
        destruct (users w !! from msg); rewrite lookup_insert_eq; eauto.
      * rewrite upsert_user_other by done. by apply Hact.
  - destruct IH as [Hrows Hactive].
    destruct (preserves_session_sendDailyCheckIn JSON_stringify j w) as [Es _].
    assert (Eu : users (sendDailyCheckIn JSON_stringify j w).2 = users w).
    { assert (Hp : preserves same_profiles (sendDailyCheckIn JSON_stringify j)).
      { apply (preserves_sendDailyCheckIn same_profiles)
          with (admissible := λ _, True); frame_side. }
      by destruct (Hp w) as [Eu _]. }
    unfold profiles_inv. rewrite Es, Eu. by split.
Qed.

(** In every reachable world each stored profile is complete: it has a
    name, a gender other than unknown, an age bracket, and is activated;
    and every user whose session is active has a stored profile. *)
Theorem stored_profiles_complete w :
  reachable toLowerCase sentiment_score JSON_stringify w →
  (∀ p row, users w !! p = Some row →
     is_Some (name row) ∧
     (∃ g, gender_col row = Some g ∧ g ≠ unknown_gender) ∧
     is_Some (age_bracket_col row) ∧
     activated row = true) ∧
  (∀ p, userStates w !! p = Some active → is_Some (users w !! p)).
Proof. intros Hr. exact (reachable_profiles_inv w Hr). Qed.

(** *** Moods of persisted user messages *)

#[local] Instance user_mood_kept_preorder :
  PreOrder (user_mood_kept sentiment_score).
Proof.
  split.
  - intros w Hw. exact Hw.
  - intros w1 w2 w3 H12 H23 H1. by apply H23, H12.
Qed.

Lemma user_mood_append r w :
  scored_if_user sentiment_score r →
  user_mood_kept sentiment_score w (set_chat_history (λ h, h ++ [r]) w).
Proof.
  intros Hr Hw r' Hin. world_simpl.
  apply elem_of_app in Hin as [Hin|Hin%list_elem_of_singleton].
  - by apply Hw.
  - by subst.
Qed.

Ltac user_mood_side :=
  first [ apply _
        | intros r w0; apply user_mood_append
        | intros ? w0 Hw; exact Hw
        | intros w0 Hw; exact Hw
        | intros ? ? Hb; discriminate Hb
        | intros ? Hb; discriminate Hb
        | intros Hb; discriminate Hb
        | intros Hb; reflexivity
        | done ].

Lemma user_mood_storeMessage e p text isBot m :
  scored_if_user sentiment_score
    {| phone_number := p; message := text; is_bot := isBot; mood_col := m |} →
  preserves (user_mood_kept sentiment_score) (storeMessage e p text isBot m).
Proof.
  intros Hrow.
  apply (preserves_storeMessage (user_mood_kept sentiment_score))
    with (admissible := scored_if_user sentiment_score);
    first [ apply _ | exact Hrow | intros r w0; apply user_mood_append ].
Qed.

Lemma user_mood_on_active e p userMessage :
  preserves (user_mood_kept sentiment_score)
    (on_active sentiment_score JSON_stringify e p userMessage).
Proof.
  unfold on_active. cbv zeta.
  frame preserves_bind.
  { apply user_mood_storeMessage. by intros _. }
  intros _. frame preserves_bind; [by frame preserves_getChatHistory|].
  intros history. frame preserves_bind; [by frame preserves_db_query|].
  intros _. frame preserves_bind; [by frame preserves_gets | intros u].
  frame preserves_bind; [frame preserves_getAIResponse; user_mood_side|].
  intros aiReply. frame preserves_bind.
  { apply user_mood_storeMessage. intros Hb. discriminate Hb. }
  intros _. frame preserves_bind;
    [frame preserves_sendLongMessage; user_mood_side|].
  intros _. destruct (_ && _); [|by frame preserves_ret].
  frame preserves_bind; [frame preserves_getAIResponse; user_mood_side|].
  intros s. frame preserves_bind;
    [frame preserves_saveSuggestion; user_mood_side|].
  intros _. frame preserves_sendMessage; user_mood_side.
Qed.

Lemma user_mood_handler e msg :
  preserves (user_mood_kept sentiment_score) (run e msg).
Proof.
  unfold handler.
  frame preserves_try_catch; [|frame preserves_sendMessage; user_mood_side].
  unfold handler_try. destruct (_ || _); [by frame preserves_ret|]. cbv zeta.
  frame preserves_bind; [by frame preserves_gets | intros state].
  destruct (_ && _).
  { frame preserves_bind; [frame preserves_set_state; user_mood_side|].
    intros _. frame preserves_sendMessage; user_mood_side. }
  unfold dispatch.
  frame preserves_bind; [by frame preserves_gets | intros state'].
  repeat case_bool_decide.
  - unfold on_awaiting_name. cbv zeta.
    frame preserves_bind; [frame preserves_modify; user_mood_side|].
    intros _. case_bool_decide.
    + frame preserves_bind; [frame preserves_saveUserProfile; user_mood_side|].
      intros _. frame preserves_bind; [frame preserves_sendMessage; user_mood_side|].
      intros _. frame preserves_set_state; user_mood_side.
    + frame preserves_bind; [frame preserves_set_state; user_mood_side|].
      intros _. frame preserves_sendMessage; user_mood_side.
  - unfold on_awaiting_gender. cbv zeta.
    frame preserves_bind; [by frame preserves_gets | intros cached].
    frame preserves_bind; [frame preserves_saveUserProfile; user_mood_side|].
    intros _. frame preserves_bind; [frame preserves_set_state; user_mood_side|].
    intros _. frame preserves_sendMessage; user_mood_side.
  - apply user_mood_on_active.
  - by frame preserves_ret.
Qed.

(** In every reachable world each persisted user message carries the
    mood the classifier gives its stored text: the mood column of a row
    that is not bot-authored is never null and never stale. *)
Theorem user_rows_carry_their_mood w :
  reachable toLowerCase sentiment_score JSON_stringify w →
  ∀ r, r ∈ chat_history w → is_bot r = false →
       mood_col r = Some (detectMood sentiment_score (message r)).
Proof.
  induction 1 as [|w Hr IH|e msg w Hr IH|j w Hr IH].
  - intros r Hin. by apply elem_of_nil in Hin.
  - exact IH.
  - by apply user_mood_handler.
  - revert IH.
    apply (preserves_sendDailyCheckIn (user_mood_kept sentiment_score))
      with (admissible := scored_if_user sentiment_score);
      user_mood_side.
Qed.

(** *** Sessions are not restored from the store *)

(** The session objects live in memory only and nothing rebuilds them
    from the users table: after a restart every sender is without a
    session whatever the store holds, so a message without the trigger
    phrase, also of a user whose profile is stored, is dropped without
    any read, write or reply. *)
Theorem restart_forgets_sessions e msg w :
  JS.includes (toLowerCase (JS.trim (body msg))) (JS.lit "hey stink") = false →
  users (restart w) = users w ∧
  chat_history (restart w) = chat_history w ∧
  (∀ p, userStates (restart w) !! p = None) ∧
  run e msg (restart w) = (Ok tt, restart w).
Proof.
  intros Htrig. do 3 (split; [done|]).
  unfold handler, try_catch, handler_try.
  destruct (isStatus msg || JS.includes (from msg) (JS.lit "@g.us"));
    [done|].
  cbv zeta. unfold bind at 1. unfold gets at 1. rewrite Htrig. cbn [andb].
  assert (Hst : userStates (restart w) !! from msg = None)
    by apply lookup_empty.
  unfold dispatch, bind, gets. rewrite Hst.
  by rewrite !bool_decide_eq_false_2.
Qed.

End Turns.

(** ** History read *)

Lemma last_n_suffix {A} (n : nat) (l : list A) : last_n n l `suffix_of` l.
Proof. exists (take (length l - n) l). unfold last_n. by rewrite take_drop. Qed.

Lemma last_n_length {A} (n : nat) (l : list A) : length (last_n n l) ≤ n.
Proof. unfold last_n. rewrite length_drop. lia. Qed.

(** [getChatHistory] never raises and never changes anything; what it
    returns is at most [CHAT_HISTORY_LIMIT] rows, all of the user asked
    for and all from the table, the most recent ones in the order of the
    table; a failed read gives the empty list. *)
Theorem getChatHistory_bounds e (phoneNumber : jsstring) w :
  ∃ h,
    getChatHistory e phoneNumber w = (Ok h, w) ∧
    length h ≤ CHAT_HISTORY_LIMIT ∧
    h `suffix_of` persisted phoneNumber (chat_history w) ∧
    Forall (λ r, phone_number r = phoneNumber ∧ r ∈ chat_history w) h ∧
    (history_ok e = false → h = []).
Proof.
  eexists. split; [apply getChatHistory_run|].
  destruct (history_ok e).
  - split; [apply last_n_length|]. split; [apply last_n_suffix|].
    split; [|done]. apply Forall_forall. intros r Hr%list_elem_of_In.
    destruct (last_n_suffix CHAT_HISTORY_LIMIT
                (persisted phoneNumber (chat_history w))) as [k Hk].
    assert (Hin : r ∈ k ++ last_n CHAT_HISTORY_LIMIT
                              (persisted phoneNumber (chat_history w)))
      by (apply elem_of_app; by right).
    rewrite <- Hk in Hin.
    unfold persisted in Hin. by apply list_elem_of_filter in Hin.
  - split; [cbn; lia|]. split; [apply suffix_nil|]. split; [constructor | done].
Qed.

(** ** The SELECT of the daily job *)

(** The users the job selects are the activated ones whose last
    interaction is less than seven days old, each once. *)
Theorem select_active_users (t : Z) (us : gmap (list N) user_row) :
  NoDup (select_active t us) ∧
  ∀ p, p ∈ select_active t us ↔
       ∃ u, us !! p = Some u ∧ activated u = true ∧
            (t - 604800 < last_interaction u)%Z.
Proof.
  unfold select_active. split.
  - apply NoDup_fst_map_to_list.
  - intros p. rewrite list_elem_of_fmap. split.
    + intros ([q u] & -> & Hin). apply elem_of_map_to_list in Hin.
      apply map_lookup_filter_Some in Hin as [Hu [Ha Ht]]. cbn. eauto.
    + intros (u & Hu & Ha & Ht). exists (p, u). split; [done|].
      apply elem_of_map_to_list. apply map_lookup_filter_Some. by split.
Qed.

(** ** The daily job *)

Section Job.

Variable JSON_stringify : context -> jsstring.

Local Abbreviation checkIn := (checkInUser JSON_stringify).
Local Abbreviation dailyJob := (sendDailyCheckIn JSON_stringify).

(** The job never raises: a failure for one user, or of the SELECT of
    the users, stays inside it.  When that SELECT fails or selects no
    user, the run reads nothing more, writes nothing and sends nothing. *)
Theorem sendDailyCheckIn_contained j w :
  (dailyJob j w).1 = Ok tt ∧
  (select_active_ok j = false ∨ select_active (job_now j) (users w) = [] →
   dailyJob j w = (Ok tt, w)).
Proof.
  split.
  - destruct (returns_caught
                (do _ <- db_query (select_active_ok j) id;
                 do rows <- gets (λ w, select_active (job_now j) (users w));
                 for_of rows (λ p, checkIn (user_env j p) p))
                (ret tt) (returns_ret tt) w) as [[] H].
    exact H.
  - unfold sendDailyCheckIn. turn_unfold.
    destruct (select_active_ok j); intros [Hf|Hnone]; try done.
    unfold id. by rewrite Hnone.
Qed.

#[local] Instance job_footprint_preorder sel : PreOrder (job_footprint sel).
Proof.
  split.
  - intros w. repeat (split; [done|]).
    split; exists []; by rewrite app_nil_r.
  - intros w1 w2 w3 (A1 & B1 & C1 & D1 & (c1 & Ec1 & Fc1) & (o1 & Eo1 & Fo1))
      (A2 & B2 & C2 & D2 & (c2 & Ec2 & Fc2) & (o2 & Eo2 & Fo2)).
    split; [congruence|]. split; [congruence|]. split; [congruence|].
    split; [congruence|]. split.
    + exists (c1 ++ c2). rewrite Ec2, Ec1, app_assoc. split; [done|].
      by apply Forall_app.
    + exists (o1 ++ o2). rewrite Eo2, Eo1, app_assoc. split; [done|].
      by apply Forall_app.
Qed.

Ltac job_base :=
  unfold job_footprint; world_simpl;
  repeat (split; [done|]);
  split; first [ by (exists []; rewrite app_nil_r)
               | by (eexists [_]; split; [reflexivity | repeat constructor]) ].

Lemma job_footprint_checkInUser sel e p :
  p ∈ sel → preserves (job_footprint sel) (checkIn e p).
Proof.
  intros Hp. unfold checkInUser.
  frame preserves_try_catch; [|by frame preserves_ret].
  frame preserves_bind; [by frame preserves_getChatHistory | intros history].
  frame preserves_bind.
  { frame preserves_generateCheckInMessage. intros x w. job_base. }
  intros text. frame preserves_bind.
  { intros w. unfold sendMessage. destruct (send_ok e (attempts w)); job_base. }
  intros _ w. rewrite storeMessage_run. destruct (insert_ok e true); job_base.
Qed.

Lemma job_footprint_for_of sel (f : jsstring → M unit) rows :
  (∀ p, p ∈ rows → preserves (job_footprint sel) (f p)) →
  preserves (job_footprint sel) (for_of rows f).
Proof.
  induction rows as [|p rows IH]; intros Hf; cbn [for_of].
  - by frame preserves_ret.
  - frame preserves_bind; [apply Hf; by left | intros _].
    apply IH. intros q Hq. apply Hf. by right.
Qed.

(** A run of the job leaves the session objects, the users table and the
    suggestions as they are; it only appends bot-authored rows without
    mood to the chat history and only delivers messages, and both only
    for users its SELECT returned (activated, seen in the last seven
    days). *)
Theorem sendDailyCheckIn_footprint j w :
  let sel := select_active (job_now j) (users w) in
  let w' := (dailyJob j w).2 in
  userStates w' = userStates w ∧
  userDataCache w' = userDataCache w ∧
  users w' = users w ∧
  suggestions w' = suggestions w ∧
  (∃ rows, chat_history w' = chat_history w ++ rows ∧
           Forall (λ r, phone_number r ∈ sel ∧ is_bot r = true ∧
                        mood_col r = None) rows) ∧
  (∃ msgs, outbox w' = outbox w ++ msgs ∧ Forall (λ m, m.1 ∈ sel) msgs).
Proof.
  cbv zeta. change (job_footprint (select_active (job_now j) (users w)) w
                      (dailyJob j w).2).
  unfold sendDailyCheckIn, try_catch, bind at 1, db_query.
  destruct (select_active_ok j); [|reflexivity].
  unfold id, bind at 1, gets.
  pose proof (job_footprint_for_of (select_active (job_now j) (users w))
                (λ p, checkIn (user_env j p) p)
                (select_active (job_now j) (users w))
                (λ p Hp, job_footprint_checkInUser _ _ p Hp) w) as Hfp.
  by destruct (for_of _ _ w) as [[[]|] w1].
Qed.

Lemma generateCheckInMessage_run e p m w :
  generateCheckInMessage JSON_stringify e p m w =
    (Ok (if select_user_ok e
         then from_option JS.trim ai_fallback
                (backend e (length (requests w))
                   (build_messages JSON_stringify
                      (checkin_prompt m (users w !! p)) [] ctx_isCheckIn))
         else checkin_fallback),
     if select_user_ok e
     then set_requests
            (λ q, q ++ [build_messages JSON_stringify
                          (checkin_prompt m (users w !! p)) [] ctx_isCheckIn]) w
     else w).
Proof.
  unfold generateCheckInMessage, getAIResponse. turn_unfold.
  destruct (select_user_ok e); [|done]. unfold id. world_simpl.
  by destruct (backend e _ _).
Qed.

(** One iteration of the job with the send and the insert succeeding. *)
Lemma checkInUser_delivers e p w :
  send_ok e (attempts w) = true →
  insert_ok e true = true →
  ∃ text w1,
    (backend_reply e text ∨ text = checkin_fallback) ∧
    attempts w1 = attempts w ∧ outbox w1 = outbox w ∧
    chat_history w1 = chat_history w ∧
    checkIn e p w =
      (Ok tt,
       set_chat_history
         (λ h, h ++ [{| phone_number := p; message := text; is_bot := true;
                        mood_col := None |}])
         (set_outbox (λ o, o ++ [(p, text)]) (set_attempts S w1))).
Proof.
  intros Hsend Hins. unfold checkInUser. unfold try_catch.
  erewrite bind_run by apply getChatHistory_run.
  erewrite bind_run by apply generateCheckInMessage_run.
  destruct (select_user_ok e).
  - erewrite bind_run by (apply sendMessage_ok; exact Hsend).
    rewrite storeMessage_run, Hins.
    eexists _, _. split; [left; apply backend_reply_from_option|].
    split; [|split; [|split; [|reflexivity]]]; done.
  - erewrite bind_run by (apply sendMessage_ok; exact Hsend).
    rewrite storeMessage_run, Hins.
    eexists _, _. split; [by right|].
    split; [|split; [|split; [|reflexivity]]]; done.
Qed.

(** When the SELECT of the users succeeds and, for every user, the
    transport accepts the send and the insert succeeds, each selected
    user gets exactly one check-in, in the order of the SELECT, and the
    same text is stored for that user as a bot row without mood; this
    holds also where the history read, the name read or the backend
    fail, the fallback texts being sent then. *)
Theorem sendDailyCheckIn_one_per_user j w :
  select_active_ok j = true →
  (∀ p n, send_ok (user_env j p) n = true) →
  (∀ p, insert_ok (user_env j p) true = true) →
  let rows := select_active (job_now j) (users w) in
  ∃ texts,
    length texts = length rows ∧
    outbox (dailyJob j w).2 = outbox w ++ zip rows texts ∧
    chat_history (dailyJob j w).2 =
      chat_history w ++
      zip_with (λ p text, {| phone_number := p; message := text;
                             is_bot := true; mood_col := None |}) rows texts.
Proof.
  intros Hsel Hsend Hins. cbv zeta.
  assert (Hjob : dailyJob j w =
            try_catch
              (for_of (select_active (job_now j) (users w))
                 (λ p, checkIn (user_env j p) p)) (ret tt) w).
  { unfold sendDailyCheckIn, try_catch, bind, db_query, gets.
    by rewrite Hsel. }
  rewrite Hjob. clear Hjob. unfold try_catch.
  generalize (select_active (job_now j) (users w)) as rows. intros rows.
  assert (Hloop : ∀ w0, ∃ texts,
            length texts = length rows ∧
            (for_of rows (λ p, checkIn (user_env j p) p) w0).1 = Ok tt ∧
            outbox (for_of rows (λ p, checkIn (user_env j p) p) w0).2
              = outbox w0 ++ zip rows texts ∧
            chat_history (for_of rows (λ p, checkIn (user_env j p) p) w0).2
              = chat_history w0 ++
                zip_with (λ p text, {| phone_number := p; message := text;
                                       is_bot := true; mood_col := None |})
                  rows texts).
  { induction rows as [|p rows IH]; intros w0; cbn [for_of].
    - exists []. cbn. by rewrite !app_nil_r.
    - destruct (checkInUser_delivers (user_env j p) p w0 (Hsend _ _) (Hins _))
        as (text & w1 & _ & _ & Ho1 & Hc1 & Hrun).
      erewrite bind_run by exact Hrun.
      match goal with
      | |- context [for_of rows _ ?w2] =>
        destruct (IH w2) as (texts & Hl & Hok & Ho & Hc)
      end.
      exists (text :: texts). rewrite Ho, Hc. world_simpl. rewrite Ho1, Hc1.
      cbn [zip_with length].
      split; [by rewrite Hl|]. split; [done|].
      split; by rewrite <- app_assoc. }
  destruct (Hloop w) as (texts & Hl & Hok & Ho & Hc).
  exists texts. split; [done|].
  destruct (for_of rows _ w) as [[[]|] w1]; [by split|discriminate Hok].
Qed.

End Job.

(** * Sample runs

    The properties at concrete inputs. *)

Lemma reachable_w_greeted : reachable asciiLower sample_score sample_json w_greeted.
Proof. apply reach_message, reach_init. Qed.

Lemma reachable_w_asked : reachable asciiLower sample_score sample_json w_asked.
Proof. apply reach_message, reachable_w_greeted. Qed.

Lemma reachable_w_john : reachable asciiLower sample_score sample_json w_john.
Proof. apply reach_message, reachable_w_greeted. Qed.

Lemma reachable_w_chatted : reachable asciiLower sample_score sample_json w_chatted.
Proof. apply reach_message, reachable_w_john. Qed.

(** C1 as stated fails: in awaiting_gender the text "boy girl skip" is
    stored as prefer-not-to-say, not as male. *)
Lemma gender_first_keyword_does_not_win :
  userStates w_asked !! alice = Some awaiting_gender ∧
  gender_col <$>
    users (sample_handler env_ok (text_from_alice "boy girl skip") w_asked).2
      !! alice
    = Some (Some prefer_not_to_say) ∧
  resolveGender (asciiLower (JS.trim (JS.lit "boy girl skip"))) ≠ male.
Proof. split; [|split]; by vm_compute. Qed.

(** The priority at the text "it's a Girl name". *)
Lemma gender_resolution_priority_witness :
  gender_col <$>
    users (sample_handler env_ok (text_from_alice "it's a Girl name") w_asked).2
      !! alice
    = Some (Some female).
Proof.
  apply (gender_resolution_priority asciiLower sample_score sample_json env_ok
           (text_from_alice "it's a Girl name") w_asked);
    vm_compute; reflexivity.
Defined.

(** C2 as stated fails: when the profile write fails the sender does get
    a message, the apology. *)
Lemma upsert_failure_sends_apology :
  upsert_ok env_upsert_fails = false ∧
  userStates w_asked !! alice = Some awaiting_gender ∧
  let r := sample_handler env_upsert_fails (text_from_alice "girl") w_asked in
  r.1 = Ok tt ∧ outbox r.2 = outbox w_asked ++ [(alice, apology)].
Proof. by vm_compute. Qed.

(** A failed profile write in awaiting_gender, answered by the apology. *)
Lemma upsert_failure_is_apologised_witness :
  let r := sample_handler env_upsert_fails (text_from_alice "girl") w_asked in
  userStates r.2 = userStates w_asked ∧ users r.2 = users w_asked ∧
  r.1 = Ok tt ∧ outbox r.2 = outbox w_asked ++ [(alice, apology)].
Proof.
  destruct (upsert_failure_is_apologised asciiLower sample_score sample_json
              env_upsert_fails (text_from_alice "girl") w_asked)
    as [(Hs & Hu & _ & _ & Hok & _) _].
  - vm_compute; reflexivity.
  - vm_compute; reflexivity.
  - vm_compute; reflexivity.
  - left. vm_compute; reflexivity.
  - cbv zeta. split; [exact Hs|]. split; [exact Hu|].
    apply Hok. vm_compute; reflexivity.
Defined.

(** C3 as stated fails: after onboarding with a listed name the state is
    active and the cached name is still there. *)
Lemma pending_name_outlives_onboarding :
  ¬ (∀ w, reachable asciiLower sample_score sample_json w →
       ∀ p, is_Some (userDataCache w !! p) ↔
            userStates w !! p = Some awaiting_gender).
Proof.
  intros H. specialize (H w_john reachable_w_john alice) as [H _].
  assert (Hc : is_Some (userDataCache w_john !! alice))
    by (eexists; vm_compute; reflexivity).
  specialize (H Hc). vm_compute in H. discriminate H.
Qed.

(** The cached name of an active user. *)
Lemma pending_name_invariant_witness :
  userStates w_john !! alice = Some active ∧
  is_Some (userDataCache w_john !! alice).
Proof.
  split; [vm_compute; reflexivity|].
  destruct (pending_name_invariant asciiLower sample_score sample_json w_john
              reachable_w_john) as [Hinv _].
  destruct (Hinv alice) as [Hset _]. apply Hset.
  right. vm_compute; reflexivity.
Defined.

(** The trim of a text of 201 pieces. *)
Lemma limitResponseLength_space_split_witness :
  limitResponseLength two_hundred_one_pieces
    = JS.join (JS.lit " ") (take MAX_WORDS (JS.split 32 two_hundred_one_pieces))
      ++ JS.lit "..." ∧
  length (JS.split 32 (limitResponseLength two_hundred_one_pieces)) = MAX_WORDS.
Proof.
  destruct (limitResponseLength_space_split two_hundred_one_pieces)
    as (_ & Hbig & _).
  destruct Hbig as (H1 & _ & _ & H2); [vm_compute; lia|].
  split; [exact H1 | exact H2].
Defined.

(** Delivery of a text of three chunks. *)
Lemma sendLongMessage_roundtrip_witness :
  ∃ chunks,
    outbox (sendLongMessage env_ok alice three_chunk_text init_world).2
      = map (pair alice) chunks ∧
    concat chunks = three_chunk_text.
Proof.
  destruct (sendLongMessage_roundtrip env_ok alice three_chunk_text init_world)
    as (chunks & Ho & _ & _ & Hfull).
  exists chunks. split; [exact Ho|].
  apply Hfull. intros n. reflexivity.
Defined.

(** The first two kinds of turn of a new sender. *)
Lemma new_sender_turn_witness :
  let r := sample_handler env_ok (text_from_alice "Hey Stink") init_world in
  userStates r.2 = <[alice := awaiting_name]> ∅ ∧
  chat_history r.2 = [] ∧ users r.2 = ∅ ∧ suggestions r.2 = [] ∧
  r.1 = Ok tt ∧ outbox r.2 = [(alice, greeting)] ∧
  sample_handler env_ok (text_from_alice "hello") init_world = (Ok tt, init_world).
Proof.
  assert (Hnone : userStates init_world !! alice = None) by reflexivity.
  pose proof (new_sender_turn asciiLower sample_score sample_json env_ok
                (text_from_alice "Hey Stink") init_world Hnone) as Hyes.
  pose proof (new_sender_turn asciiLower sample_score sample_json env_ok
                (text_from_alice "hello") init_world Hnone) as Hno.
  cbv zeta in Hyes, Hno. destruct Hyes as [Hyes _]. destruct Hno as [_ Hno].
  destruct Hyes as (Hs & _ & Hc & Hu & Hg & _ & Hsend);
    [vm_compute; reflexivity..|].
  destruct Hsend as [Hr Ho]; [reflexivity|].
  cbv zeta. split; [exact Hs|]. split; [exact Hc|]. split; [exact Hu|].
  split; [exact Hg|]. split; [exact Hr|]. split; [exact Ho|].
  apply Hno. vm_compute; reflexivity.
Defined.

(** The bracket of the first sample text. *)
Lemma estimateAgeBracket_first_token_witness :
  in_bracket adult 45 ∨ (adult = unknown ∧ ∀ b', ¬ in_bracket b' 45).
Proof.
  apply (proj1 estimateAgeBracket_first_token (JS.lit "I am 45 today") 5 45%N
           first_token_sample adult).
  vm_compute; reflexivity.
Defined.

(** The request of the first chat turn of a freshly onboarded user. *)
Lemma backend_turn_list_witness :
  ∃ later,
    requests (sample_handler env_ok (text_from_alice "I feel fine") w_john).2 =
      [[{| turn_role := role_system;
           content := persona ++ sample_json ctx_empty |};
        {| turn_role := role_user; content := JS.lit "I feel fine" |};
        {| turn_role := role_user; content := JS.lit "I feel fine" |}]]
      ++ later.
Proof.
  destruct (backend_turn_list asciiLower sample_score sample_json env_ok
              (text_from_alice "I feel fine") w_john)
    as [later Hreq]; [vm_compute; reflexivity..|].
  exists later. unfold sample_handler. rewrite Hreq. vm_compute. reflexivity.
Defined.

(** The check-in of a user whose last persisted row is a bot reply. *)
Lemma bot_rows_null_mood_witness :
  (∀ r, r ∈ chat_history w_chatted → is_bot r = true → mood_col r = None) ∧
  requests (checkInUser sample_json env_ok alice w_chatted).2 =
    requests w_chatted ++
    [build_messages sample_json
       (checkin_prompt None (users w_chatted !! alice)) [] ctx_isCheckIn].
Proof.
  destruct (bot_rows_null_mood asciiLower sample_score sample_json w_chatted
              reachable_w_chatted) as (Hnull & _ & Hreq).
  split; [exact Hnull|].
  destruct (list.last (persisted alice (chat_history w_chatted))) as [r|] eqn:Hl;
    [|vm_compute in Hl; discriminate Hl].
  apply (Hreq env_ok alice r); [reflexivity | reflexivity | exact Hl |].
  vm_compute in Hl. injection Hl as <-. reflexivity.
Defined.

(** ** Further sample runs *)

(** A two-letter text goes out as one message. *)
Lemma sendLongMessage_short_witness :
  sendLongMessage env_ok alice (JS.lit "hi") init_world =
    (Ok tt, set_outbox (λ o, o ++ [(alice, JS.lit "hi")])
              (set_attempts S init_world)).
Proof.
  rewrite (sendLongMessage_short env_ok alice (JS.lit "hi") init_world);
    [|vm_compute; lia | reflexivity].
  destruct (decide _) as [E|_]; [vm_compute in E; discriminate E | reflexivity].
Defined.

(** Alice giving her name leaves Bob without session, cache entry or row. *)
Lemma handler_leaves_other_users_witness :
  let r := sample_handler env_ok (text_from_alice "John") w_greeted in
  userStates r.2 !! bob = None ∧
  userDataCache r.2 !! bob = None ∧
  users r.2 !! bob = None.
Proof.
  destruct (handler_leaves_other_users asciiLower sample_score sample_json
              env_ok (text_from_alice "John") w_greeted bob)
    as (Hs & Hc & Hu).
  { intros E. vm_compute in E. discriminate E. }
  cbv zeta. unfold sample_handler. rewrite Hs, Hc, Hu.
  by vm_compute.
Defined.

(** The trigger phrase in a group chat starts no session. *)
Lemma handler_ignores_status_and_groups_witness :
  sample_handler env_ok text_from_group init_world = (Ok tt, init_world).
Proof.
  apply (handler_ignores_status_and_groups asciiLower sample_score sample_json
           env_ok text_from_group init_world).
  right. vm_compute. reflexivity.
Defined.

(** A chat turn with every call succeeding returns normally. *)
Lemma handler_no_apology_witness :
  (sample_handler env_ok (text_from_alice "hello there") w_john).1 = Ok tt.
Proof.
  apply (handler_no_apology asciiLower sample_score sample_json env_ok
           (text_from_alice "hello there") w_john);
    [intros n|..]; reflexivity.
Defined.

(** The name John completes onboarding. *)
Lemma listed_name_completes_onboarding_witness :
  let r := sample_handler env_ok (text_from_alice "John") w_greeted in
  r.1 = Ok tt ∧
  userStates r.2 = <[alice := active]> (userStates w_greeted) ∧
  outbox r.2 =
    outbox w_greeted ++ [(alice, nice_to_meet_you (JS.trim (JS.lit "John")))].
Proof.
  pose proof (listed_name_completes_onboarding asciiLower sample_score
                sample_json env_ok (text_from_alice "John") w_greeted) as H.
  cbv zeta in H.
  destruct H as (Hr & Hs & _ & _ & Ho & _);
    [first [ vm_compute; reflexivity
           | intros E; vm_compute in E; discriminate E ]..|].
  cbv zeta. split; [exact Hr|]. split; [exact Hs | exact Ho].
Defined.

(** The name Pat is put aside and the question is asked. *)
Lemma unlisted_name_asks_gender_witness :
  let r := sample_handler env_ok (text_from_alice "Pat") w_greeted in
  r.1 = Ok tt ∧
  userStates r.2 = <[alice := awaiting_gender]> (userStates w_greeted) ∧
  users r.2 = users w_greeted.
Proof.
  pose proof (unlisted_name_asks_gender asciiLower sample_score
                sample_json env_ok (text_from_alice "Pat") w_greeted) as H.
  cbv zeta in H.
  destruct H as (Hr & Hs & _ & _ & Hu & _); [vm_compute; reflexivity..|].
  cbv zeta. split; [exact Hr|]. split; [exact Hs | exact Hu].
Defined.

(** The answer "girl" completes the onboarding of Pat. *)
Lemma gender_turn_completes_onboarding_witness :
  let r := sample_handler env_ok (text_from_alice "girl") w_asked in
  r.1 = Ok tt ∧
  userStates r.2 = <[alice := active]> (userStates w_asked) ∧
  outbox r.2 = outbox w_asked ++ [(alice, steady_prompt)].
Proof.
  pose proof (gender_turn_completes_onboarding asciiLower sample_score
                sample_json env_ok (text_from_alice "girl") w_asked
                reachable_w_asked) as H.
  cbv zeta in H.
  destruct H as (Hr & Hs & _ & _ & Ho & _); [vm_compute; reflexivity..|].
  cbv zeta. split; [exact Hr|]. split; [exact Hs | exact Ho].
Defined.

(** The acknowledgment of the name John cannot be sent: the row is
    written, the state stays awaiting_name. *)
Lemma onboarding_send_failure_witness :
  let r := sample_handler env_send_fails (text_from_alice "John") w_greeted in
  userStates r.2 = userStates w_greeted ∧ is_Some (users r.2 !! alice).
Proof.
  pose proof (onboarding_send_failure asciiLower sample_score
                sample_json env_send_fails (text_from_alice "John") w_greeted)
    as H.
  cbv zeta in H.
  destruct H as (Hname & _ & _); [vm_compute; reflexivity..|].
  apply Hname; [vm_compute; reflexivity|].
  intros E. vm_compute in E. discriminate E.
Defined.


(** A chat turn whose profile read fails is answered by the apology. *)
Lemma active_turn_profile_read_fails_witness :
  let r := sample_handler env_read_fails (text_from_alice "hello there") w_john in
  r.1 = Ok tt ∧
  outbox r.2 = outbox w_john ++ [(alice, apology)] ∧
  requests r.2 = requests w_john.
Proof.
  pose proof (active_turn_profile_read_fails asciiLower sample_score
                sample_json env_read_fails (text_from_alice "hello there")
                w_john) as H.
  cbv zeta in H.
  destruct H as (Hr & Ho & Hq & _); [vm_compute; reflexivity..|].
  cbv zeta. split; [exact Hr|]. split; [exact Ho | exact Hq].
Defined.

(** The profile of the active user of the sample world. *)
Lemma stored_profiles_complete_witness :
  userStates w_john !! alice = Some active ∧ is_Some (users w_john !! alice).
Proof.
  assert (Hs : userStates w_john !! alice = Some active)
    by (vm_compute; reflexivity).
  split; [exact Hs|].
  exact (proj2 (stored_profiles_complete asciiLower sample_score sample_json
                  w_john reachable_w_john) alice Hs).
Defined.

(** The mood of the one user message of the sample world. *)
Lemma user_rows_carry_their_mood_witness :
  let r := {| phone_number := alice; message := JS.lit "hello there";
              is_bot := false; mood_col := Some neutral |} in
  r ∈ chat_history w_chatted ∧
  mood_col r = Some (detectMood sample_score (message r)).
Proof.
  cbv zeta.
  assert (Hin : {| phone_number := alice; message := JS.lit "hello there";
                   is_bot := false; mood_col := Some neutral |}
                ∈ chat_history w_chatted).
  { apply list_elem_of_In. vm_compute. left. reflexivity. }
  split; [exact Hin|].
  exact (user_rows_carry_their_mood asciiLower sample_score sample_json
           w_chatted reachable_w_chatted _ Hin eq_refl).
Defined.

(** The job run after the first chat turn of the sample user. *)
Lemma sendDailyCheckIn_one_per_user_witness :
  ∃ texts,
    length texts = 1 ∧
    outbox (sendDailyCheckIn sample_json job_ok w_chatted).2 =
      outbox w_chatted ++ zip [alice] texts.
Proof.
  pose proof (sendDailyCheckIn_one_per_user sample_json job_ok w_chatted) as H.
  cbv zeta in H.
  assert (Hsel : select_active (job_now job_ok) (users w_chatted) = [alice])
    by (vm_compute; reflexivity).
  rewrite Hsel in H.
  destruct H as (texts & Hl & Ho & _);
    [reflexivity | intros p n; reflexivity | intros p; reflexivity |].
  exists texts. split; [exact Hl | exact Ho].
Defined.

(** After a restart the onboarded user of the sample world is not
    answered. *)
Lemma restart_forgets_sessions_witness :
  is_Some (users (restart w_chatted) !! alice) ∧
  sample_handler env_ok (text_from_alice "hello again") (restart w_chatted)
    = (Ok tt, restart w_chatted).
Proof.
  split; [eexists; vm_compute; reflexivity|].
  apply (restart_forgets_sessions asciiLower sample_score sample_json env_ok
           (text_from_alice "hello again") w_chatted).
  vm_compute. reflexivity.
Defined.
